(** * West Campus apartment map: price filter, marker reconciliation,
      selection, data loading and overlay scheduling

    A shallow embedding of the [WestCampusMap] class (filter revision of
    static/app.js, with the first revision's [renderApartments] kept for
    comparison) and the properties its specification states about it.

    Layout:
    - [JS]: the ECMAScript built-ins the class relies on (IEEE doubles,
      [parseInt], [ToNumber], [ToBoolean], string [replace] and [split]);
    - [D3]: the keyed data join of d3-selection and the DOM insertion it
      performs;
    - the application state, the methods of the class as state
      transformers that may throw, and the browser events that drive them;
    - the vocabulary the properties are stated in;
    - [D3Facts]: what the join leaves in the document;
    - the properties, by component. *)

From Stdlib Require Import ZArith Ascii String List Lia Permutation SpecFloat.
From stdpp Require Import gmap strings list.

Local Open Scope string_scope.

#[local] Set Warnings "-clear-no-such-hyp".

(* ===================================================================== *)
(** ** ECMAScript built-ins *)
(* ===================================================================== *)

Module JS.

Local Open Scope Z_scope.

(** A Number is an IEEE 754 binary64 value ([prec = 53], [emax = 1024]). *)
Definition number := spec_float.

Definition prec : Z := 53.
Definition emax : Z := 1024.

Definition NaN : number := S754_nan.
Definition Infinity : number := S754_infinity false.
Definition pos_zero : number := S754_zero false.

(** The Number value for a mathematical integer: round to nearest, ties to
    even; magnitudes of 2^1024 and above become an infinity. *)
Definition of_Z (z : Z) : number := binary_normalize prec emax z 0 false.

(** The Number value for the rational [±m / d], with [d] positive. *)
Definition of_ratio (neg : bool) (m d : positive) : number :=
  SFdiv prec emax (S754_finite neg m 0) (S754_finite false d 0).

(** [a <= b] on Numbers: false as soon as one side is NaN. *)
Definition le (a b : number) : bool := SFleb a b.

(** A string is a sequence of code units; the model covers the code units
    below 256, one [ascii] each. *)

(** WhiteSpace and LineTerminator code units below 256: TAB, LF, VT, FF,
    CR, SP and NBSP. *)
Definition isWhiteSpace (c : ascii) : bool :=
  let n := nat_of_ascii c in
  ((9 <=? n) && (n <=? 13) || (n =? 32) || (n =? 160))%nat.

Fixpoint trimStart (s : string) : string :=
  match s with
  | String c r => if isWhiteSpace c then trimStart r else s
  | EmptyString => EmptyString
  end.

Fixpoint rev_onto (s acc : string) : string :=
  match s with
  | EmptyString => acc
  | String c r => rev_onto r (String c acc)
  end.

Definition reverse (s : string) : string := rev_onto s EmptyString.

Definition trimEnd (s : string) : string := reverse (trimStart (reverse s)).

Definition trim (s : string) : string := trimEnd (trimStart s).

(** The value of [c] as a digit, for radices up to 36. *)
Definition digitValue (c : ascii) : option Z :=
  let n := Z.of_nat (nat_of_ascii c) in
  if (48 <=? n) && (n <=? 57) then Some (n - 48)
  else if (97 <=? n) && (n <=? 122) then Some (n - 87)
  else if (65 <=? n) && (n <=? 90) then Some (n - 55)
  else None.

Definition radixDigit (R : Z) (c : ascii) : option Z :=
  match digitValue c with
  | Some d => if d <? R then Some d else None
  | None => None
  end.

(** The longest prefix of radix-[R] digits (most significant first) and
    what follows it. *)
Fixpoint spanDigits (R : Z) (s : string) : list Z * string :=
  match s with
  | String c r =>
      match radixDigit R c with
      | Some d => let '(ds, rest) := spanDigits R r in (d :: ds, rest)
      | None => ([], s)
      end
  | EmptyString => ([], EmptyString)
  end.

Definition digitsValue (R : Z) (ds : list Z) : Z :=
  fold_left (fun acc d => acc * R + d) ds 0.

(** [parseInt(string)] with the radix left out. *)
Definition parseInt (inputString : string) : number :=
  let str := trimStart inputString in
  let negative := match str with String "-" _ => true | _ => false end in
  let str := match str with
             | String "+" r | String "-" r => r
             | _ => str
             end in
  let '(R, str) := match str with
                   | String "0" (String "x" r) | String "0" (String "X" r) =>
                       (16, r)
                   | _ => (10, str)
                   end in
  match fst (spanDigits R str) with
  | [] => NaN
  | ds =>
      let mathInt := digitsValue R ds in
      if mathInt =? 0 then S754_zero negative
      else of_Z (if negative then - mathInt else mathInt)
  end.

(** *** StringToNumber *)

(** [0x], [0o] and [0b] literals: no sign, at least one digit, nothing
    after the digits. *)
Definition NonDecimalIntegerLiteral (s : string) : option Z :=
  match s with
  | String "0" (String p r) =>
      let R := if (p =? "x")%char || (p =? "X")%char then Some 16
               else if (p =? "o")%char || (p =? "O")%char then Some 8
               else if (p =? "b")%char || (p =? "B")%char then Some 2
               else None in
      match R with
      | Some R =>
          match spanDigits R r with
          | ((_ :: _) as ds, EmptyString) => Some (digitsValue R ds)
          | _ => None
          end
      | None => None
      end
  | _ => None
  end.

(** ExponentPart: [e] or [E], an optional sign, at least one digit, up to
    the end of the literal. No exponent part counts as exponent 0. *)
Definition ExponentPart (s : string) : option Z :=
  match s with
  | EmptyString => Some 0
  | String c r =>
      if (c =? "e")%char || (c =? "E")%char then
        let '(neg, r) := match r with
                         | String "+" r' => (false, r')
                         | String "-" r' => (true, r')
                         | _ => (false, r)
                         end in
        match spanDigits 10 r with
        | ((_ :: _) as ds, EmptyString) =>
            Some (if neg then - digitsValue 10 ds else digitsValue 10 ds)
        | _ => None
        end
      else None
  end.

(** The Number value of [±m * 10^e]. *)
Definition of_decimal (neg : bool) (m e : Z) : number :=
  match m with
  | Zpos p =>
      if 0 <=? e then of_Z ((if neg then - m else m) * 10 ^ e)
      else of_ratio neg p (Z.to_pos (10 ^ (- e)))
  | _ => S754_zero neg
  end.

(** StrUnsignedDecimalLiteral, the sign already read. *)
Definition StrUnsignedDecimalLiteral (neg : bool) (s : string)
  : option number :=
  if (s =? "Infinity")%string then Some (S754_infinity neg) else
  let '(ip, r) := spanDigits 10 s in
  let '(fp, r) := match r with
                  | String "." r' => spanDigits 10 r'
                  | _ => ([], r)
                  end in
  match ip, fp with
  | [], [] => None
  | _, _ =>
      match ExponentPart r with
      | Some e =>
          Some (of_decimal neg (digitsValue 10 (ip ++ fp))
                  (e - Z.of_nat (length fp)))
      | None => None
      end
  end.

Definition StrDecimalLiteral (s : string) : option number :=
  match s with
  | String "+" r => StrUnsignedDecimalLiteral false r
  | String "-" r => StrUnsignedDecimalLiteral true r
  | _ => StrUnsignedDecimalLiteral false s
  end.

(** StringToNumber: surrounding white space is dropped, the empty string
    is +0, anything that is not a numeric literal is NaN. *)
Definition StringToNumber (s : string) : number :=
  let t := trim s in
  match t with
  | EmptyString => pos_zero
  | _ =>
      match NonDecimalIntegerLiteral t with
      | Some n => of_Z n
      | None =>
          match StrDecimalLiteral t with
          | Some v => v
          | None => NaN
          end
      end
  end.

(** *** Values *)

(** The primitive values that reach the code: listing fields decoded from
    JSON, the value of the price selector, the stored filter. *)
Inductive value :=
| VUndefined
| VNull
| VBoolean (b : bool)
| VNumber (n : number)
| VString (s : string).

Definition ToBoolean (v : value) : bool :=
  match v with
  | VUndefined | VNull => false
  | VBoolean b => b
  | VNumber (S754_zero _) | VNumber S754_nan => false
  | VNumber _ => true
  | VString EmptyString => false
  | VString _ => true
  end.

(** Unary [+]. *)
Definition ToNumber (v : value) : number :=
  match v with
  | VUndefined => NaN
  | VNull => pos_zero
  | VBoolean b => if b then of_Z 1 else pos_zero
  | VNumber n => n
  | VString s => StringToNumber s
  end.

Definition Number_isFinite (v : value) : bool :=
  match v with
  | VNumber (S754_zero _) | VNumber (S754_finite _ _ _) => true
  | _ => false
  end.

(** [s.replace(/[...]/g, '')]: every code unit of the class is dropped. *)
Fixpoint removeAll (drop : ascii -> bool) (s : string) : string :=
  match s with
  | EmptyString => EmptyString
  | String c r =>
      if drop c then removeAll drop r else String c (removeAll drop r)
  end.

(** [s.split(sep)] for a one-unit separator: never an empty array. *)
Fixpoint split (sep : ascii) (s : string) : list string :=
  match s with
  | EmptyString => [EmptyString]
  | String c r =>
      if (c =? sep)%char then EmptyString :: split sep r
      else match split sep r with
           | p :: ps => String c p :: ps
           | [] => [String c EmptyString]
           end
  end.

(** Completion of a call: a normal result or a thrown exception. *)
Inductive error :=
| TypeError (msg : string)
| HttpError (status : Z)
| FetchError.

Inductive completion (A : Type) :=
| Normal (a : A)
| Throw (e : error).
Arguments Normal {A} a.
Arguments Throw {A} e.

End JS.

(* ===================================================================== *)
(** ** The keyed data join of d3-selection *)
(* ===================================================================== *)

(** [parent.selectAll(sel).data(data, key)] followed by the calls the
    application chains on the result. The joined group holds the matching
    children of one parent, in document order; a node of the group is named
    by its index in it. *)

Module D3.

Section Join.

Context {Node Datum : Type}.

(** [node.__data__], its assignment, and the key function. The key is
    compared as a string. *)
Variable datum_of : Node -> Datum.
Variable bind : Node -> Datum -> Node.
Variable key : Datum -> string.

(** What the join decides for one element of [data]: the group node it is
    bound to, or a placeholder for a node still to be created. *)
Inductive slot :=
| Update (i : nat) (d : Datum)
| Enter (d : Datum).

(** First loop of the join: the first node of each key goes into
    [nodeByKeyValue]; a later node with the same key goes to exit. *)
Fixpoint index_nodes (i : nat) (group : list Node)
    (nodeByKeyValue : gmap string nat) (exit : gset nat)
  : gmap string nat * gset nat :=
  match group with
  | [] => (nodeByKeyValue, exit)
  | node :: rest =>
      let keyValue := key (datum_of node) in
      match nodeByKeyValue !! keyValue with
      | Some _ => index_nodes (S i) rest nodeByKeyValue ({[ i ]} ∪ exit)
      | None =>
          index_nodes (S i) rest (<[ keyValue := i ]> nodeByKeyValue) exit
      end
  end.

(** Second loop: a datum whose key is still in the map takes that node and
    removes the key; any other datum enters. *)
Fixpoint bind_data (data : list Datum) (nodeByKeyValue : gmap string nat)
  : list slot * gmap string nat :=
  match data with
  | [] => ([], nodeByKeyValue)
  | d :: rest =>
      let keyValue := key d in
      match nodeByKeyValue !! keyValue with
      | Some i =>
          let '(slots, m) := bind_data rest (delete keyValue nodeByKeyValue) in
          (Update i d :: slots, m)
      | None =>
          let '(slots, m) := bind_data rest nodeByKeyValue in
          (Enter d :: slots, m)
      end
  end.

(** Third loop: the nodes still in the map were bound to no datum. *)
Fixpoint unbound_nodes (i : nat) (group : list Node)
    (nodeByKeyValue : gmap string nat) : gset nat :=
  match group with
  | [] => ∅
  | node :: rest =>
      let others := unbound_nodes (S i) rest nodeByKeyValue in
      if decide (nodeByKeyValue !! key (datum_of node) = Some i)
      then {[ i ]} ∪ others else others
  end.

(** The datum a group node was bound to by the second loop, if any. *)
Fixpoint bound (slots : list slot) (i : nat) : option Datum :=
  match slots with
  | [] => None
  | Update j d :: rest => if decide (i = j) then Some d else bound rest i
  | Enter _ :: rest => bound rest i
  end.

(** The first update node of [slots]. *)
Fixpoint next_update (slots : list slot) : option nat :=
  match slots with
  | [] => None
  | Update i _ :: _ => Some i
  | Enter _ :: rest => next_update rest
  end.

(** The enter placeholders in data order, each with its [_next]: the
    update node that follows it in the data, if there is one. *)
Fixpoint enter_nodes (slots : list slot) : list (Datum * option nat) :=
  match slots with
  | [] => []
  | Enter d :: rest => (d, next_update rest) :: enter_nodes rest
  | Update _ _ :: rest => enter_nodes rest
  end.

(** A child of the parent during reconciliation: a node of the joined
    group under its index, or a node created since. *)
Definition child : Type := option nat * Node.

Fixpoint tag_from (i : nat) (group : list Node) (slots : list slot)
  : list child :=
  match group with
  | [] => []
  | node :: rest =>
      (Some i, match bound slots i with
               | Some d => bind node d
               | None => node
               end) :: tag_from (S i) rest slots
  end.

(** The state of a join: the parent's children and the three selections. *)
Record join := {
  children : list child;
  slots : list slot;
  exit : gset nat
}.

Definition data (group : list Node) (data : list Datum) : join :=
  let '(nodeByKeyValue, dup) := index_nodes 0 group ∅ ∅ in
  let '(slots, remaining) := bind_data data nodeByKeyValue in
  {| children := tag_from 0 group slots;
     slots := slots;
     exit := dup ∪ unbound_nodes 0 group remaining |}.

(** [parent.insertBefore(new, ref)]: before [ref], at the end when [ref]
    is null. The DOM raises NotFoundError when [ref] is not a child; the
    join only passes update nodes, which are children
    ([D3Facts.enter_nodes_next], [D3Facts.data_updates]), and the model
    puts the node last in that case. *)
Fixpoint insertBefore (new : child) (ref : option nat)
    (cs : list child) : list child :=
  match cs with
  | [] => [new]
  | c :: rest =>
      match ref, fst c with
      | Some i, Some j =>
          if decide (i = j) then new :: c :: rest
          else c :: insertBefore new ref rest
      | _, _ => c :: insertBefore new ref rest
      end
  end.

(** [.enter().append(...)]: one new node per placeholder, in data order,
    each inserted before the placeholder's [_next]. *)
Definition enter_append (create : Datum -> Node) (j : join) : join :=
  {| children :=
       fold_left (fun cs '(d, next) => insertBefore (None, create d) next cs)
         (enter_nodes (slots j)) (children j);
     slots := slots j;
     exit := exit j |}.

Definition in_merge (j : join) (c : child) : bool :=
  match fst c with
  | Some i => match bound (slots j) i with Some _ => true | None => false end
  | None => true
  end.

Definition merged (f : Node -> Node) (j : join) (c : child) : child :=
  if in_merge j c then (fst c, f (snd c)) else c.

(** [update.merge(enter).attr(...)]: [f] on the update and the new nodes. *)
Definition merge_each (f : Node -> Node) (j : join) : join :=
  {| children := merged f j <$> children j;
     slots := slots j;
     exit := exit j |}.

Definition in_exit (j : join) (c : child) : bool :=
  match fst c with
  | Some i => bool_decide (i ∈ exit j)
  | None => false
  end.

Definition kept (j : join) (c : child) : bool := negb (in_exit j c).

(** [.exit().remove()]. *)
Definition exit_remove (j : join) : join :=
  {| children := List.filter (kept j) (children j);
     slots := slots j;
     exit := exit j |}.

Definition nodes (j : join) : list Node := snd <$> children j.

(** *** Vocabulary for the facts about the join *)

(** The group nodes taken by the data, and the data that took a node or
    entered, in data order. *)
Fixpoint update_indices (slots : list slot) : list nat :=
  match slots with
  | [] => []
  | Update i _ :: rest => i :: update_indices rest
  | Enter _ :: rest => update_indices rest
  end.

Fixpoint update_data (slots : list slot) : list Datum :=
  match slots with
  | [] => []
  | Update _ d :: rest => d :: update_data rest
  | Enter _ :: rest => update_data rest
  end.

Fixpoint enter_data (slots : list slot) : list Datum :=
  match slots with
  | [] => []
  | Update _ _ :: rest => enter_data rest
  | Enter d :: rest => d :: enter_data rest
  end.

Definition slot_datum (s : slot) : Datum :=
  match s with Update _ d | Enter d => d end.

Definition key_of (n : Node) : string := key (datum_of n).

End Join.

Arguments slot : clear implicits.

End D3.

(* ===================================================================== *)
(** ** Application state *)
(* ===================================================================== *)

Import JS.

(** Completions form a monad; [try_catch] is [try { } catch (error) { }]. *)
#[export] Instance completion_ret : MRet completion := @Normal.

#[export] Instance completion_bind : MBind completion :=
  fun A B k c =>
    match c with
    | Normal a => k a
    | Throw e => Throw e
    end.

Definition try_catch {A} (c : completion A) (handler : error -> completion A)
  : completion A :=
  match c with
  | Normal a => Normal a
  | Throw e => handler e
  end.

(** [array.filter(p)]: the callback runs on the elements in order, and the
    first exception it throws ends the call. *)
Fixpoint filterC {A} (p : A -> completion bool) (l : list A)
  : completion (list A) :=
  match l with
  | [] => Normal []
  | a :: rest =>
      keep ← p a;
      kept ← filterC p rest;
      mret (if (keep : bool) then a :: kept else kept)
  end.

(** A listing record of [/api/apartments]. A field the record lacks reads
    as [VUndefined]. *)
Record listing := {
  name : string;
  lat : number;
  lon : number;
  price_per_person : value;
  price_min : value;
  address : value;
  photo : value;
  notes : value;
  website : value
}.

(** [L.Point]. *)
Record Point := { x : number; y : number }.

(** The Leaflet map as the class uses it: the projection of a coordinate
    pair to layer pixels ([latLngToLayerPoint(new L.LatLng(lat, lon))],
    on the finite coordinates a decoded record holds) and the projected
    corners of the current bounds. *)
Record LeafletMap := {
  latLngToLayerPoint : number -> number -> Point;
  northWest : Point;
  southEast : Point
}.

(** A [<g class="apartment-marker">] child of [this.g]: its bound datum,
    whether it carries the class [selected], and its [transform], the
    translation to the stored point. The attributes no method reads back
    (tabindex, role, aria-label, the circle) and the tooltip are left out;
    its click and keydown listeners are the events [MarkerClick] and
    [MarkerKey] below. *)
Record marker := {
  datum : listing;
  selected : bool;
  transform : option Point
}.

(** Geometry written by the viewport synchronisation: the attributes of
    the [<svg>] and the translation of the group. *)
Record Overlay := {
  width : number;
  height : number;
  left : number;
  top : number;
  translate : Point
}.

(** Content of [#infoPanelContent]: the markup of the page as served, the
    detail view of a listing, or the empty-state placeholder. *)
Inductive panel :=
| PageMarkup
| ApartmentDetails (a : listing)
| EmptyState.

(** A decoded JSON document (the boundary feature collections). *)
#[local] Unset Elimination Schemes.
Inductive json :=
| JNull
| JBool (b : bool)
| JNum (n : number)
| JStr (s : string)
| JArr (items : list json)
| JObj (members : list (string * json)).
#[local] Set Elimination Schemes.

(** A [.toast] element of [#toastContainer]. *)
Record toast := { textContent : string; show : bool }.

(** Work handed to [requestAnimationFrame]. *)
Inductive callback :=
| OverlayFrame
| ToastShow (i : nat).

Record app := {
  map : LeafletMap;
  overlay : option Overlay;
  markers : list marker;
  (** [None]: the page has no [#infoPanelContent]. *)
  infoPanel : option panel;
  toasts : list toast;
  apartments : list listing;
  westUniversityNeighborhood : option json;
  utCampusNeighborhood : option json;
  (** [null] or a Number. *)
  currentPriceFilter : value;
  (** [null] or the handle of the pending frame request; handles are
      positive, so the field is truthy exactly when it holds one. *)
  scheduleUpdate : option positive;
  (** The browser's list of animation frame callbacks and the last handle
      it gave out. *)
  frameCallbacks : list (positive * callback);
  lastHandle : N;
  (** Instrumentation: how many times the body of the overlay frame
      callback has run. *)
  overlayRuns : nat
}.

Definition set_map v (st : app) : app :=
  {| map := v; overlay := overlay st; markers := markers st;
     infoPanel := infoPanel st; toasts := toasts st;
     apartments := apartments st;
     westUniversityNeighborhood := westUniversityNeighborhood st;
     utCampusNeighborhood := utCampusNeighborhood st;
     currentPriceFilter := currentPriceFilter st;
     scheduleUpdate := scheduleUpdate st;
     frameCallbacks := frameCallbacks st; lastHandle := lastHandle st;
     overlayRuns := overlayRuns st |}.

Definition set_overlay v (st : app) : app :=
  {| map := map st; overlay := v; markers := markers st;
     infoPanel := infoPanel st; toasts := toasts st;
     apartments := apartments st;
     westUniversityNeighborhood := westUniversityNeighborhood st;
     utCampusNeighborhood := utCampusNeighborhood st;
     currentPriceFilter := currentPriceFilter st;
     scheduleUpdate := scheduleUpdate st;
     frameCallbacks := frameCallbacks st; lastHandle := lastHandle st;
     overlayRuns := overlayRuns st |}.

Definition set_markers v (st : app) : app :=
  {| map := map st; overlay := overlay st; markers := v;
     infoPanel := infoPanel st; toasts := toasts st;
     apartments := apartments st;
     westUniversityNeighborhood := westUniversityNeighborhood st;
     utCampusNeighborhood := utCampusNeighborhood st;
     currentPriceFilter := currentPriceFilter st;
     scheduleUpdate := scheduleUpdate st;
     frameCallbacks := frameCallbacks st; lastHandle := lastHandle st;
     overlayRuns := overlayRuns st |}.

Definition set_infoPanel v (st : app) : app :=
  {| map := map st; overlay := overlay st; markers := markers st;
     infoPanel := v; toasts := toasts st; apartments := apartments st;
     westUniversityNeighborhood := westUniversityNeighborhood st;
     utCampusNeighborhood := utCampusNeighborhood st;
     currentPriceFilter := currentPriceFilter st;
     scheduleUpdate := scheduleUpdate st;
     frameCallbacks := frameCallbacks st; lastHandle := lastHandle st;
     overlayRuns := overlayRuns st |}.

Definition set_toasts v (st : app) : app :=
  {| map := map st; overlay := overlay st; markers := markers st;
     infoPanel := infoPanel st; toasts := v; apartments := apartments st;
     westUniversityNeighborhood := westUniversityNeighborhood st;
     utCampusNeighborhood := utCampusNeighborhood st;
     currentPriceFilter := currentPriceFilter st;
     scheduleUpdate := scheduleUpdate st;
     frameCallbacks := frameCallbacks st; lastHandle := lastHandle st;
     overlayRuns := overlayRuns st |}.

Definition set_apartments v (st : app) : app :=
  {| map := map st; overlay := overlay st; markers := markers st;
     infoPanel := infoPanel st; toasts := toasts st; apartments := v;
     westUniversityNeighborhood := westUniversityNeighborhood st;
     utCampusNeighborhood := utCampusNeighborhood st;
     currentPriceFilter := currentPriceFilter st;
     scheduleUpdate := scheduleUpdate st;
     frameCallbacks := frameCallbacks st; lastHandle := lastHandle st;
     overlayRuns := overlayRuns st |}.

Definition set_westUniversityNeighborhood v (st : app) : app :=
  {| map := map st; overlay := overlay st; markers := markers st;
     infoPanel := infoPanel st; toasts := toasts st;
     apartments := apartments st; westUniversityNeighborhood := v;
     utCampusNeighborhood := utCampusNeighborhood st;
     currentPriceFilter := currentPriceFilter st;
     scheduleUpdate := scheduleUpdate st;
     frameCallbacks := frameCallbacks st; lastHandle := lastHandle st;
     overlayRuns := overlayRuns st |}.

Definition set_utCampusNeighborhood v (st : app) : app :=
  {| map := map st; overlay := overlay st; markers := markers st;
     infoPanel := infoPanel st; toasts := toasts st;
     apartments := apartments st;
     westUniversityNeighborhood := westUniversityNeighborhood st;
     utCampusNeighborhood := v; currentPriceFilter := currentPriceFilter st;
     scheduleUpdate := scheduleUpdate st;
     frameCallbacks := frameCallbacks st; lastHandle := lastHandle st;
     overlayRuns := overlayRuns st |}.

Definition set_currentPriceFilter v (st : app) : app :=
  {| map := map st; overlay := overlay st; markers := markers st;
     infoPanel := infoPanel st; toasts := toasts st;
     apartments := apartments st;
     westUniversityNeighborhood := westUniversityNeighborhood st;
     utCampusNeighborhood := utCampusNeighborhood st;
     currentPriceFilter := v; scheduleUpdate := scheduleUpdate st;
     frameCallbacks := frameCallbacks st; lastHandle := lastHandle st;
     overlayRuns := overlayRuns st |}.

Definition set_scheduleUpdate v (st : app) : app :=
  {| map := map st; overlay := overlay st; markers := markers st;
     infoPanel := infoPanel st; toasts := toasts st;
     apartments := apartments st;
     westUniversityNeighborhood := westUniversityNeighborhood st;
     utCampusNeighborhood := utCampusNeighborhood st;
     currentPriceFilter := currentPriceFilter st; scheduleUpdate := v;
     frameCallbacks := frameCallbacks st; lastHandle := lastHandle st;
     overlayRuns := overlayRuns st |}.

Definition set_frameCallbacks v (st : app) : app :=
  {| map := map st; overlay := overlay st; markers := markers st;
     infoPanel := infoPanel st; toasts := toasts st;
     apartments := apartments st;
     westUniversityNeighborhood := westUniversityNeighborhood st;
     utCampusNeighborhood := utCampusNeighborhood st;
     currentPriceFilter := currentPriceFilter st;
     scheduleUpdate := scheduleUpdate st; frameCallbacks := v;
     lastHandle := lastHandle st; overlayRuns := overlayRuns st |}.

Definition set_lastHandle v (st : app) : app :=
  {| map := map st; overlay := overlay st; markers := markers st;
     infoPanel := infoPanel st; toasts := toasts st;
     apartments := apartments st;
     westUniversityNeighborhood := westUniversityNeighborhood st;
     utCampusNeighborhood := utCampusNeighborhood st;
     currentPriceFilter := currentPriceFilter st;
     scheduleUpdate := scheduleUpdate st;
     frameCallbacks := frameCallbacks st; lastHandle := v;
     overlayRuns := overlayRuns st |}.

Definition set_overlayRuns v (st : app) : app :=
  {| map := map st; overlay := overlay st; markers := markers st;
     infoPanel := infoPanel st; toasts := toasts st;
     apartments := apartments st;
     westUniversityNeighborhood := westUniversityNeighborhood st;
     utCampusNeighborhood := utCampusNeighborhood st;
     currentPriceFilter := currentPriceFilter st;
     scheduleUpdate := scheduleUpdate st;
     frameCallbacks := frameCallbacks st; lastHandle := lastHandle st;
     overlayRuns := v |}.

(** A method body: it reads and writes the state and may throw; what it
    wrote before throwing stays written. *)
Definition M (A : Type) : Type := app -> completion A * app.

#[export] Instance M_ret : MRet M := fun A a st => (Normal a, st).

#[export] Instance M_bind : MBind M :=
  fun A B k m st =>
    match m st with
    | (Normal a, st') => k a st'
    | (Throw e, st') => (Throw e, st')
    end.

Definition lift {A} (c : completion A) : M A := fun st => (c, st).

Definition throw {A} (e : error) : M A := fun st => (Throw e, st).

Definition get : M app := fun st => (Normal st, st).

Definition modify (f : app -> app) : M unit := fun st => (Normal tt, f st).

Definition try_catchM {A} (m : M A) (handler : error -> M A) : M A :=
  fun st =>
    match m st with
    | (Normal a, st') => (Normal a, st')
    | (Throw e, st') => handler e st'
    end.

(* ===================================================================== *)
(** ** The methods of [WestCampusMap] *)
(* ===================================================================== *)

Module PriceRange.
Record t := { min : number; max : number }.
End PriceRange.

Definition unbounded : PriceRange.t :=
  {| PriceRange.min := pos_zero; PriceRange.max := Infinity |}.

(** The classes of the patterns [/s/g] and [/[$,]/g]. *)
Definition is_s (c : ascii) : bool := (c =? "s")%char.

Definition is_currency (c : ascii) : bool := ((c =? "$") || (c =? ","))%char.

(** Parse price range string to get minimum and maximum values. A truthy
    argument that is not a string has no [replace] method. *)
Definition parsePriceRange (priceString : value) : completion PriceRange.t :=
  if negb (ToBoolean priceString) then Normal unbounded else
  match priceString with
  | VString priceString =>
      let cleanString := removeAll is_s priceString in
      let parts := split "-" cleanString in
      let digits := removeAll is_currency in
      match parts with
      | [part] =>
          let price := parseInt (digits part) in
          Normal {| PriceRange.min := price; PriceRange.max := price |}
      | [part0; part1] =>
          let minPrice := parseInt (digits part0) in
          let maxPrice := parseInt (digits part1) in
          Normal {| PriceRange.min := minPrice; PriceRange.max := maxPrice |}
      | _ => Normal unbounded
      end
  | _ => Throw (TypeError "priceString.replace is not a function")
  end.

(** Check if apartment price is within the filter range (prefers numeric
    fields if present). *)
Definition isPriceInRange (apartment : listing) (maxPrice : value)
  : completion bool :=
  if negb (ToBoolean maxPrice) then Normal true else
  let numericMax := ToNumber maxPrice in
  if Number_isFinite (price_min apartment) then
    Normal (le (ToNumber (price_min apartment)) numericMax)
  else
    priceRange ← parsePriceRange (price_per_person apartment);
    mret (le (PriceRange.min priceRange) numericMax).

(** The listings to show: all of them without a filter, those that pass
    it otherwise. *)
Definition getFilteredApartments : M (list listing) :=
  st ← get;
  match apartments st with
  | [] => mret []
  | _ =>
      if ToBoolean (currentPriceFilter st) then
        lift (filterC (fun apartment =>
                         isPriceInRange apartment (currentPriceFilter st))
                (apartments st))
      else mret (apartments st)
  end.

(** [node.__data__ = d] and [.classed('selected', b)] on a marker. *)
Definition rebind (m : marker) (d : listing) : marker :=
  {| datum := d; selected := selected m; transform := transform m |}.

Definition classed_selected (b : bool) (m : marker) : marker :=
  {| datum := datum m; selected := b; transform := transform m |}.

(** [.append('g').attr('class', 'apartment-marker')]. *)
Definition new_marker (d : listing) : marker :=
  {| datum := d; selected := false; transform := None |}.

(** [.attr('transform', d => ...)]. *)
Definition place (map : LeafletMap) (m : marker) : marker :=
  {| datum := datum m;
     selected := selected m;
     transform := Some (latLngToLayerPoint map (lat (datum m)) (lon (datum m))) |}.

(** The keyed reconciliation of the markers with [apartments]: all
    markers go when the list is empty; otherwise the list is joined by
    name, markers are created for the entering listings, the new and the
    kept markers are positioned, and the markers left over are removed. *)
Definition renderMarkers (apartments : list listing) (st : app) : app :=
  match apartments with
  | [] => set_markers [] st
  | _ =>
      let apartmentMarkers := D3.data datum rebind name (markers st) apartments in
      let newMarkers := D3.enter_append new_marker apartmentMarkers in
      let merged := D3.merge_each (place (map st)) newMarkers in
      set_markers (D3.nodes (D3.exit_remove merged)) st
  end.

(** The detail view of the listing, or the placeholder without one;
    nothing when the page has no panel. *)
Definition updateInfoPanel (selectedApartment : option listing) (st : app)
  : app :=
  match infoPanel st with
  | None => st
  | Some _ =>
      match selectedApartment with
      | Some a => set_infoPanel (Some (ApartmentDetails a)) st
      | None => set_infoPanel (Some EmptyState) st
      end
  end.

(** [d.name === apartment.name] compares two strings. *)
Definition selectApartment (apartment : listing) (st : app) : app :=
  let st := updateInfoPanel (Some apartment) st in
  let st := set_markers (classed_selected false <$> markers st) st in
  set_markers
    ((fun m => if String.eqb (name (datum m)) (name apartment)
               then classed_selected true m else m) <$> markers st) st.

Definition clearSelection (st : app) : app :=
  let st := set_markers (classed_selected false <$> markers st) st in
  updateInfoPanel None st.

(** [window.requestAnimationFrame]: the callback joins the list under a
    fresh handle. *)
Definition requestAnimationFrame (cb : callback) (st : app) : positive * app :=
  let handle := N.succ_pos (lastHandle st) in
  (handle,
   set_lastHandle (Npos handle)
     (set_frameCallbacks (frameCallbacks st ++ [(handle, cb)]) st)).

(** Toast for non-blocking errors/info. The timeout that takes the toast
    away again is not modelled. *)
Definition showToast (message : string) (st : app) : app :=
  let i := length (toasts st) in
  let created := {| textContent := message; show := false |} in
  let st := set_toasts (toasts st ++ [created]) st in
  snd (requestAnimationFrame (ToastShow i) st).

(** [renderNeighborhoods] and [renderDistanceOverlay] only add and remove
    Leaflet layers, which the state does not hold. *)
Definition renderMap : M unit :=
  filtered ← getFilteredApartments;
  modify (renderMarkers filtered);;
  modify (updateInfoPanel None).

(** Nothing while a frame request is pending; otherwise one is made and
    its handle kept. *)
Definition updateOverlay (st : app) : app :=
  match scheduleUpdate st with
  | Some _ => st
  | None =>
      let '(handle, st) := requestAnimationFrame OverlayFrame st in
      set_scheduleUpdate (Some handle) st
  end.

(** The body of the callback [updateOverlay] schedules: the flag is
    cleared first, then the overlay is sized and moved to the projected
    bounds and the markers are rendered. *)
Definition overlayFrame : M unit :=
  modify (set_scheduleUpdate None);;
  modify (fun st => set_overlayRuns (S (overlayRuns st)) st);;
  modify (fun st =>
    let topLeft := northWest (map st) in
    let bottomRight := southEast (map st) in
    set_overlay
      (Some {| width := SFsub prec emax (x bottomRight) (x topLeft);
               height := SFsub prec emax (y bottomRight) (y topLeft);
               left := x topLeft;
               top := y topLeft;
               translate := {| x := SFopp (x topLeft);
                               y := SFopp (y topLeft) |} |}) st);;
  filtered ← getFilteredApartments;
  modify (renderMarkers filtered).

(** Filter apartments by price and update map. *)
Definition filterByPrice (maxPrice : value) : M unit :=
  modify (set_currentPriceFilter
            (if ToBoolean maxPrice then VNumber (ToNumber maxPrice)
             else VNull));;
  st ← get;
  filteredApartments ←
    lift (filterC (fun apartment =>
                     isPriceInRange apartment (currentPriceFilter st))
            (apartments st));
  modify (renderMarkers filteredApartments);;
  st ← get;
  match List.find selected (markers st) with
  | Some selectedMarker =>
      let selectedData := datum selectedMarker in
      inRange ← lift (isPriceInRange selectedData (currentPriceFilter st));
      if (inRange : bool) then mret tt else modify clearSelection
  | None => mret tt
  end.

(** *** Data loading *)

(** A settled [fetch]: rejected, or a response with its status and what
    [response.json()] settles to. *)
Record response (A : Type) := { status : Z; body : completion A }.
Arguments status {A} r.
Arguments body {A} r.

Inductive fetched (A : Type) :=
| Rejected
| Resolved (r : response A).
Arguments Rejected {A}.
Arguments Resolved {A} r.

(** [response.ok]: a status from 200 to 299. *)
Definition ok {A} (r : response A) : bool :=
  ((200 <=? status r) && (status r <=? 299))%Z.

Definition await {A} (f : fetched A) : completion (response A) :=
  match f with
  | Rejected => Throw FetchError
  | Resolved r => Normal r
  end.

Definition getFallbackNeighborhoodData (neighname : string) : json :=
  JObj [("type", JStr "FeatureCollection");
        ("features",
         JArr [JObj [("type", JStr "Feature");
                     ("properties", JObj [("neighname", JStr neighname)]);
                     ("geometry",
                      JObj [("type", JStr "MultiPolygon");
                            ("coordinates", JArr [JArr [JArr []]])])]])].

Definition getNeighborhoodData (neighname : string) (reply : fetched json)
  : completion json :=
  try_catch
    (response ← await reply;
     if ok response then body response
     else Normal (getFallbackNeighborhoodData neighname))
    (fun error => Normal (getFallbackNeighborhoodData neighname)).

Definition loadFailedNotice : string :=
  "Some data failed to load. Using fallbacks where possible.".

(** The three requests are awaited together; [Promise.all] rejects as
    soon as one of them does. *)
Definition loadData (apartmentsReply : fetched (list listing))
    (westUniversityReply utCampusReply : fetched json) : M unit :=
  try_catchM
    (apartmentsResponse ← lift (await apartmentsReply);
     westUniversityData ←
       lift (getNeighborhoodData "WEST UNIVERSITY" westUniversityReply);
     utCampusData ← lift (getNeighborhoodData "UT" utCampusReply);
     (if ok apartmentsResponse then mret tt
      else throw (HttpError (status apartmentsResponse)));;
     decoded ← lift (body apartmentsResponse);
     modify (set_apartments decoded);;
     modify (set_westUniversityNeighborhood (Some westUniversityData));;
     modify (set_utCampusNeighborhood (Some utCampusData));;
     renderMap)
    (fun error =>
       renderMap;;
       modify (showToast loadFailedNotice)).

(** *** The first revision *)

Module FirstRevision.

(** [renderApartments]: the join of all loaded listings, with nothing done
    when there are none. *)
Definition renderApartments (st : app) : app :=
  match apartments st with
  | [] => st
  | _ =>
      let apartmentMarkers :=
        D3.data datum rebind name (markers st) (apartments st) in
      let newMarkers := D3.enter_append new_marker apartmentMarkers in
      let merged := D3.merge_each (place (map st)) newMarkers in
      set_markers (D3.nodes (D3.exit_remove merged)) st
  end.

End FirstRevision.

(** *** Browser events *)

Inductive event :=
| Loaded (apartmentsReply : fetched (list listing))
    (westUniversityReply utCampusReply : fetched json)
| PriceChange (selectedValue : string)
| MarkerClick (i : nat)
| MarkerKey (i : nat) (key : string)
| MapClick
| MapMoved (m : LeafletMap)
| AnimationFrame.

(** What a frame callback does when the browser runs it. *)
Definition runCallback (cb : callback) : M unit :=
  match cb with
  | OverlayFrame => overlayFrame
  | ToastShow i =>
      modify (fun st =>
        set_toasts
          (alter (fun t => {| textContent := textContent t; show := true |})
             i (toasts st)) st)
  end.

(** One turn of the event loop: the three replies of [loadData] have
    settled, a listener runs, or the browser runs the frame callbacks. An
    exception that leaves a listener or a frame callback is reported to the
    console and the loop goes on. *)
Definition step (e : event) (st : app) : app :=
  match e with
  | Loaded apartmentsReply westUniversityReply utCampusReply =>
      snd (loadData apartmentsReply westUniversityReply utCampusReply st)
  | PriceChange selectedValue => snd (filterByPrice (VString selectedValue) st)
  | MarkerClick i =>
      match markers st !! i with
      | Some m => selectApartment (datum m) st
      | None => st
      end
  | MarkerKey i key =>
      match markers st !! i with
      | Some m =>
          if (key =? "Enter")%string || (key =? " ")%string
          then selectApartment (datum m) st else st
      | None => st
      end
  | MapClick => clearSelection st
  | MapMoved m => updateOverlay (set_map m st)
  | AnimationFrame =>
      fold_left (fun st '(_, cb) => snd (runCallback cb st))
        (frameCallbacks st) (set_frameCallbacks [] st)
  end.

Definition run (es : list event) (st : app) : app :=
  fold_left (fun st e => step e st) es st.

(** The state the constructor leaves behind: [createMap] has asked for a
    first overlay update and [loadData] is waiting for its replies. *)
Definition constructed (m : LeafletMap) (page : option panel) : app :=
  updateOverlay
    {| map := m;
       overlay := None;
       markers := [];
       infoPanel := page;
       toasts := [];
       apartments := [];
       westUniversityNeighborhood := None;
       utCampusNeighborhood := None;
       currentPriceFilter := VNull;
       scheduleUpdate := None;
       frameCallbacks := [];
       lastHandle := 0;
       overlayRuns := 0 |}.

(* ===================================================================== *)
(** ** Vocabulary of the specification *)
(* ===================================================================== *)

(** *** The price filter *)

(** The listings a threshold lets through. *)
Definition passes (threshold : value) (apartment : listing) : bool :=
  match isPriceInRange apartment threshold with
  | Normal true => true
  | _ => false
  end.

(** A listing whose price can be read: a finite numeric [price_min], or a
    price label [parsePriceRange] accepts (a string, or a falsy value). *)
Definition priced (apartment : listing) : Prop :=
  Number_isFinite (price_min apartment) = true \/
  exists r, parsePriceRange (price_per_person apartment) = Normal r.

(** The predicate ends normally on [apartment]. *)
Definition evaluates (threshold : value) (apartment : listing) : Prop :=
  exists b, isPriceInRange apartment threshold = Normal b.

(** The filter [filterByPrice] stores for a selector value. *)
Definition stored (maxPrice : value) : value :=
  if ToBoolean maxPrice then VNumber (ToNumber maxPrice) else VNull.

(** What it means for the markers [new] to show the listings of [loaded]
    that pass [threshold], [old] being the markers before the pass. *)
Record shows (threshold : value) (loaded : list listing)
    (old new : list marker) : Prop := {
  shows_exactly :
    datum <$> new ≡ₚ List.filter (passes threshold) loaded;
  shows_iff : forall l,
    l ∈ datum <$> new <->
    l ∈ loaded /\ isPriceInRange l threshold = Normal true;
  shows_subset : forall l, l ∈ datum <$> new -> l ∈ loaded;
  shows_removed : forall m,
    m ∈ old ->
    name (datum m) ∉ name <$> List.filter (passes threshold) loaded ->
    forall m', m' ∈ new -> name (datum m') <> name (datum m);
  shows_empty :
    List.filter (passes threshold) loaded = [] -> new = []
}.

(** *** Price labels *)

(** The text of a price label once every [s], [$] and [,] is gone. *)
Definition strip (s : string) : string :=
  removeAll is_currency (removeAll is_s s).

(** The number of hyphens of a label, and whether it holds a digit. *)
Fixpoint hyphens (s : string) : nat :=
  match s with
  | EmptyString => 0
  | String c r => if (c =? "-")%char then S (hyphens r) else hyphens r
  end.

Fixpoint has_digit (s : string) : bool :=
  match s with
  | EmptyString => false
  | String c r =>
      match radixDigit 10 c with Some _ => true | None => has_digit r end
  end.

(** The range of a single price. *)
Definition point (v : number) : PriceRange.t :=
  {| PriceRange.min := v; PriceRange.max := v |}.

#[export] Instance completion_fmap : FMap completion :=
  fun A B f c =>
    match c with
    | Normal a => Normal (f a)
    | Throw e => Throw e
    end.

(** The minimum price of a listing in the words of the specification: the
    listing's [price_min] when it is present and a finite number, and
    otherwise the [min] of [parsePriceRange] on its display price. *)
Definition listingMinimum (apartment : listing) : completion number :=
  match price_min apartment with
  | VNumber (S754_zero _ as n) | VNumber (S754_finite _ _ _ as n) => Normal n
  | _ => PriceRange.min <$> parsePriceRange (price_per_person apartment)
  end.

(** The listing with its [price_min] replaced. *)
Definition with_price_min (v : value) (l : listing) : listing :=
  {| name := name l; lat := lat l; lon := lon l;
     price_per_person := price_per_person l; price_min := v;
     address := address l; photo := photo l; notes := notes l;
     website := website l |}.

(** *** Failed requests *)

(** A boundary request that failed: the fetch rejected, the status is not
    a success status, or the body could not be decoded. *)
Definition failed {A} (reply : fetched A) : Prop :=
  match reply with
  | Rejected => True
  | Resolved r => ok r = false \/ exists e, body r = Throw e
  end.

(** *** Selection *)

(** The keys of the rendered markers, and the markers flagged selected. *)
Definition marker_names (st : app) : list string :=
  name ∘ datum <$> markers st.

Definition selected_markers (st : app) : list marker :=
  List.filter selected (markers st).

(** The events that select and clear: a click or a key press on a
    rendered marker, and a click on the map background. *)
Definition selection_event (e : event) : Prop :=
  match e with
  | MarkerClick _ | MarkerKey _ _ | MapClick => True
  | _ => False
  end.

(** *** Overlay scheduling *)

Definition is_overlay (entry : positive * callback) : bool :=
  match snd entry with
  | OverlayFrame => true
  | ToastShow _ => false
  end.

(** The overlay callbacks waiting for the next frame. *)
Definition overlay_pending (st : app) : nat :=
  length (List.filter is_overlay (frameCallbacks st)).

(** The pending flag tells the truth: one overlay callback waits while it
    is set, none while it is clear. *)
Definition scheduled (st : app) : Prop :=
  match scheduleUpdate st with
  | Some _ => overlay_pending st = 1
  | None => overlay_pending st = 0
  end.

(** The methods other than [updateOverlay] and the frame callback leave
    the flag and the waiting overlay callbacks alone. *)
Definition same_schedule (st st' : app) : Prop :=
  scheduleUpdate st' = scheduleUpdate st /\
  overlay_pending st' = overlay_pending st.

(** *** A small data set *)

Definition sample_listing (n : string) (pmin price : value) : listing :=
  {| name := n; lat := of_Z 30; lon := of_Z (-97);
     price_per_person := price; price_min := pmin;
     address := VString "West Campus"; photo := VUndefined;
     notes := VString ""; website := VUndefined |}.

Definition sample_A : listing :=
  sample_listing "A" (VNumber (of_Z 950)) (VString "950s").
Definition sample_B : listing :=
  sample_listing "B" (VNumber (of_Z 850)) (VString "850s").
Definition sample_C : listing :=
  sample_listing "C" VUndefined (VString "$700s-$900s").

Definition sample_map : LeafletMap :=
  {| latLngToLayerPoint := fun lat lon => {| x := lon; y := lat |};
     northWest := {| x := of_Z 0; y := of_Z 0 |};
     southEast := {| x := of_Z 800; y := of_Z 600 |} |}.

Definition sample_boundary : fetched json :=
  Resolved {| status := 200;
              body := Normal (JObj [("type", JStr "FeatureCollection");
                                    ("features", JArr [])]) |}.

(** The page after a successful load of the three listings. *)
Definition sample_loaded : app :=
  snd (loadData
         (Resolved {| status := 200;
                      body := Normal [sample_A; sample_B; sample_C] |})
         sample_boundary sample_boundary
         (constructed sample_map (Some PageMarkup))).

(** A listing whose price label is the number 900, without [price_min],
    and the page after a successful load of A, that listing and C. *)
Definition sample_N : listing :=
  sample_listing "N" VUndefined (VNumber (of_Z 900)).

Definition sample_numeric : app :=
  snd (loadData
         (Resolved {| status := 200;
                      body := Normal [sample_A; sample_N; sample_C] |})
         sample_boundary sample_boundary
         (constructed sample_map (Some PageMarkup))).

(** A listing whose price label holds no amount, and one without label. *)
Definition sample_call : listing :=
  sample_listing "D" VUndefined (VString "Call for pricing").

Definition sample_blank : listing :=
  sample_listing "E" VUndefined VUndefined.

(** ... and after a click on the marker of [sample_A]. *)
Definition sample_selected : app := step (MarkerClick 0) sample_loaded.

(* ===================================================================== *)
(** ** Facts about the data join *)
(* ===================================================================== *)

Module D3Facts.
Import D3.

Section JoinFacts.

Context {Node Datum : Type}.
Variable datum_of : Node -> Datum.
Variable bind : Node -> Datum -> Node.
Variable key : Datum -> string.

Abbreviation slot := (D3.slot Datum).
Abbreviation index_nodes := (D3.index_nodes datum_of key).
Abbreviation bind_data := (D3.bind_data (Datum:=Datum) key).
Abbreviation unbound_nodes := (D3.unbound_nodes datum_of key).
Abbreviation key_of := (D3.key_of datum_of key).

Lemma bound_None (slots : list slot) (i : nat) :
  bound slots i = None <-> i ∉ update_indices slots.
Proof.
  induction slots as [|[j d|d] rest IH]; simpl.
  - split; [intros _; apply not_elem_of_nil | done].
  - case_decide as E.
    + subst. split; [done | intros H; exfalso; apply H; left].
    + rewrite IH, not_elem_of_cons. naive_solver.
  - exact IH.
Qed.

Lemma slots_split (slots : list slot) :
  slot_datum <$> slots ≡ₚ enter_data slots ++ update_data slots.
Proof.
  induction slots as [|[j d|d] rest IH]; simpl.
  - done.
  - rewrite IH. apply Permutation_middle.
  - by rewrite IH.
Qed.

(** The reference node of an insertion is an update node. *)
Lemma next_update_is_update (slots : list slot) (i : nat) :
  next_update slots = Some i -> i ∈ update_indices slots.
Proof.
  induction slots as [|[j d|d] rest IH]; cbn; [done | | done].
  intros [= ->]. left.
Qed.

Lemma enter_nodes_next (slots : list slot) (d : Datum) (i : nat) :
  (d, Some i) ∈ enter_nodes slots -> i ∈ update_indices slots.
Proof.
  induction slots as [|[j d'|d'] rest IH]; cbn.
  - by intros ?%elem_of_nil.
  - intros H. right. by apply IH.
  - intros [[= _ Hn]|H]%elem_of_cons; [|by apply IH].
    by apply next_update_is_update.
Qed.

Lemma enter_nodes_data (slots : list slot) :
  fst <$> enter_nodes slots = enter_data slots.
Proof.
  induction slots as [|[j d|d] rest IH]; simpl; [done | done | ].
  f_equal. exact IH.
Qed.

Lemma bound_update_ne (j i : nat) (d : Datum) (rest : list slot) :
  i <> j -> bound (Update j d :: rest) i = bound rest i.
Proof. intros Hne. simpl. by rewrite decide_False. Qed.

Lemma bound_update_eq (j : nat) (d : Datum) (rest : list slot) :
  bound (Update j d :: rest) j = Some d.
Proof. simpl. by rewrite decide_True. Qed.

Lemma omap_bound_skip (j : nat) (d : Datum) (rest : list slot) (L : list nat) :
  j ∉ L -> omap (bound (Update j d :: rest)) L = omap (bound rest) L.
Proof.
  intros Hj. apply list_omap_ext, Forall_Forall2_diag, Forall_forall.
  intros i Hi. apply bound_update_ne. intros ->. done.
Qed.

Lemma omap_nothing {A B} (f : A -> option B) (L : list A) :
  (forall a, f a = None) -> omap f L = [].
Proof.
  intros Hf. induction L as [|a L IH]; [done|].
  cbn [omap list_omap]. rewrite Hf. exact IH.
Qed.

Lemma bound_update_data (slots : list slot) (L : list nat) :
  NoDup L -> NoDup (update_indices slots) ->
  (forall i, i ∈ update_indices slots -> i ∈ L) ->
  omap (bound slots) L ≡ₚ update_data slots.
Proof.
  revert L. induction slots as [|[j d|d] rest IH]; intros L HL HU Hin.
  - by rewrite omap_nothing.
  - cbn [update_indices] in HU, Hin. cbn [update_data].
    apply NoDup_cons in HU as [Hj HU].
    assert (HjL : j ∈ L) by (apply Hin; left).
    apply elem_of_Permutation in HjL as [L' HL'].
    assert (HL2 : NoDup (j :: L')) by (by rewrite <- HL').
    apply NoDup_cons in HL2 as [HjL' HL2].
    rewrite HL'. cbn [omap list_omap]. rewrite bound_update_eq.
    constructor. fold (omap (bound (Update j d :: rest)) L').
    rewrite (omap_bound_skip j d rest L' HjL').
    apply IH; [done | done |].
    intros i Hi. specialize (Hin i (list_elem_of_further _ _ _ Hi)).
    rewrite HL' in Hin. apply elem_of_cons in Hin as [->|]; done.
  - by apply IH.
Qed.

(** *** The three loops *)

Lemma index_nodes_spec (g : list Node) : forall a m ex m' ex',
  index_nodes a g m ex = (m', ex') ->
  (forall s i, m !! s = Some i -> i < a) ->
  (forall i, i ∈ ex -> i < a) ->
  (forall s i, m' !! s = Some i ->
     m !! s = Some i \/ exists k n, i = a + k /\ g !! k = Some n /\ key_of n = s) /\
  (forall s i, m !! s = Some i -> m' !! s = Some i) /\
  (forall i, i ∈ ex' <->
     i ∈ ex \/ exists k n, i = a + k /\ g !! k = Some n /\ m' !! key_of n <> Some i).
Proof.
  induction g as [|n g IH]; intros a m ex m' ex' Hrun Hm Hex.
  - simpl in Hrun. injection Hrun as <- <-. split_and!; [naive_solver | done |].
    intros i. split; [auto|]. intros [?|(k & n & _ & Hk & _)]; [done|].
    by rewrite lookup_nil in Hk.
  - cbn [D3.index_nodes] in Hrun. fold (key_of n) in Hrun.
    destruct (m !! key_of n) as [j|] eqn:Hlook.
    + apply IH in Hrun as (G1 & G2 & G3).
      * split_and!.
        -- intros s i Hi. destruct (G1 s i Hi) as [?|(k & n' & -> & Hk & Hs)];
             [by left|]. right. exists (S k), n'. split_and!; [lia | done | done].
        -- done.
        -- intros i. rewrite G3. split.
           ++ intros [Hi|(k & n' & -> & Hk & Hne)].
              ** apply elem_of_union in Hi as [Hi|Hi]; [|by left].
                 apply elem_of_singleton in Hi as ->. right. exists 0, n.
                 split_and!; [lia | done |].
                 rewrite (G2 _ _ Hlook). intros [= ->].
                 specialize (Hm _ _ Hlook). lia.
              ** right. exists (S k), n'. split_and!; [lia | done | done].
           ++ intros [Hi|(k & n' & -> & Hk & Hne)].
              ** left. set_solver.
              ** destruct k as [|k]; simpl in Hk.
                 --- left. replace (a + 0) with a by lia. set_solver.
                 --- right. exists k, n'. split_and!; [lia | done |].
                     by replace (S a + k) with (a + S k) by lia.
      * intros s i Hi. specialize (Hm _ _ Hi). lia.
      * intros i Hi. apply elem_of_union in Hi as [Hi|Hi].
        -- apply elem_of_singleton in Hi as ->. lia.
        -- specialize (Hex _ Hi). lia.
    + apply IH in Hrun as (G1 & G2 & G3).
      * assert (Ha : m' !! key_of n = Some a) by (apply G2, lookup_insert_eq).
        split_and!.
        -- intros s i Hi. destruct (G1 s i Hi) as [Hin|(k & n' & -> & Hk & Hs)].
           ++ apply lookup_insert_Some in Hin as [[<- <-]|[_ ?]]; [|by left].
              right. exists 0, n. split_and!; [lia | done | done].
           ++ right. exists (S k), n'. split_and!; [lia | done | done].
        -- intros s i Hi. apply G2. rewrite lookup_insert_ne; [done|].
           intros <-. congruence.
        -- intros i. rewrite G3. split.
           ++ intros [Hi|(k & n' & -> & Hk & Hne)]; [by left|].
              right. exists (S k), n'. split_and!; [lia | done | done].
           ++ intros [Hi|(k & n' & -> & Hk & Hne)]; [by left|].
              destruct k as [|k]; simpl in Hk.
              ** injection Hk as <-. exfalso. apply Hne.
                 by replace (a + 0) with a by lia.
              ** right. exists k, n'. split_and!; [lia | done |].
                 by replace (S a + k) with (a + S k) by lia.
      * intros s i Hi. apply lookup_insert_Some in Hi as [[_ <-]|[_ Hi]]; [lia|].
        specialize (Hm _ _ Hi). lia.
      * intros i Hi. specialize (Hex _ Hi). lia.
Qed.

Lemma unbound_nodes_spec (g : list Node) (m : gmap string nat) : forall a i,
  i ∈ unbound_nodes a g m <->
  exists k n, i = a + k /\ g !! k = Some n /\ m !! key_of n = Some i.
Proof.
  induction g as [|n g IH]; intros a i; cbn [D3.unbound_nodes].
  - split; [set_solver|]. intros (k & n & _ & Hk & _). by rewrite lookup_nil in Hk.
  - fold (key_of n). case_decide as Hn.
    + rewrite elem_of_union, elem_of_singleton, IH. split.
      * intros [->|(k & n' & -> & Hk & Hi)].
        -- exists 0, n. split_and!; [lia | done | done].
        -- exists (S k), n'. split_and!; [lia | done | done].
      * intros (k & n' & -> & Hk & Hi). destruct k as [|k]; simpl in Hk.
        -- left. lia.
        -- right. exists k, n'. split_and!; [lia | done |].
           by replace (S a + k) with (a + S k) by lia.
    + rewrite IH. split.
      * intros (k & n' & -> & Hk & Hi).
        exists (S k), n'. split_and!; [lia | done | done].
      * intros (k & n' & -> & Hk & Hi). destruct k as [|k]; simpl in Hk.
        -- injection Hk as <-. exfalso. apply Hn.
           by replace (a + 0) with a in Hi by lia.
        -- exists k, n'. split_and!; [lia | done |].
           by replace (S a + k) with (a + S k) by lia.
Qed.

Lemma bind_data_datum (ds : list Datum) : forall m slots m',
  bind_data ds m = (slots, m') -> slot_datum <$> slots = ds.
Proof.
  induction ds as [|d ds IH]; intros m slots m' Hrun; cbn [D3.bind_data] in Hrun.
  - by injection Hrun as <- <-.
  - destruct (m !! key d) as [i|];
      destruct (bind_data ds _) as [slots0 m0] eqn:Hrest;
      injection Hrun as <- <-; cbn; f_equal; eapply IH, Hrest.
Qed.

Lemma bind_data_remaining (ds : list Datum) : forall m slots m' s,
  bind_data ds m = (slots, m') ->
  m' !! s = if decide (s ∈ key <$> ds) then None else m !! s.
Proof.
  induction ds as [|d ds IH]; intros m slots m' s Hrun; cbn [D3.bind_data] in Hrun.
  - injection Hrun as <- <-. rewrite decide_False; [done | set_solver].
  - destruct (m !! key d) as [i|] eqn:Hd;
      destruct (bind_data ds _) as [slots0 m0] eqn:Hrest;
      injection Hrun as <- <-; rewrite (IH _ _ _ s Hrest); rewrite fmap_cons.
    + destruct (decide (s = key d)) as [->|Hne].
      * rewrite (decide_True (P := _ ∈ _ :: _)) by left.
        case_decide; [done | apply lookup_delete_eq].
      * rewrite lookup_delete_ne by done.
        repeat case_decide; set_solver.
    + destruct (decide (s = key d)) as [->|Hne].
      * rewrite (decide_True (P := _ ∈ _ :: _)) by left. by case_decide.
      * repeat case_decide; set_solver.
Qed.

Lemma bind_data_updates (ds : list Datum) : forall m slots m' i,
  bind_data ds m = (slots, m') ->
  i ∈ update_indices slots <->
  exists s, s ∈ key <$> ds /\ m !! s = Some i.
Proof.
  induction ds as [|d ds IH]; intros m slots m' i Hrun; cbn [D3.bind_data] in Hrun.
  - injection Hrun as <- <-. set_solver.
  - destruct (m !! key d) as [j|] eqn:Hd;
      destruct (bind_data ds _) as [slots0 m0] eqn:Hrest;
      injection Hrun as <- <-; cbn [update_indices]; rewrite fmap_cons.
    + rewrite elem_of_cons, (IH _ _ _ i Hrest). split.
      * intros [->|(s & Hs & Hi)].
        -- exists (key d). split; [left | done].
        -- apply lookup_delete_Some in Hi as [Hne Hi].
           exists s. split; [by right | done].
      * intros (s & Hs & Hi). destruct (decide (s = key d)) as [->|Hne].
        -- left. congruence.
        -- right. exists s. apply elem_of_cons in Hs as [?|Hs]; [done|].
           split; [done|]. by rewrite lookup_delete_ne.
    + rewrite (IH _ _ _ i Hrest). split.
      * intros (s & Hs & Hi). exists s. split; [by right | done].
      * intros (s & Hs & Hi). exists s. apply elem_of_cons in Hs as [->|Hs];
          [congruence | done].
Qed.

Lemma bind_data_NoDup (ds : list Datum) : forall m slots m',
  bind_data ds m = (slots, m') ->
  (forall s s' i, m !! s = Some i -> m !! s' = Some i -> s = s') ->
  NoDup (update_indices slots).
Proof.
  induction ds as [|d ds IH]; intros m slots m' Hrun Hinj; cbn [D3.bind_data] in Hrun.
  - injection Hrun as <- <-. constructor.
  - destruct (m !! key d) as [j|] eqn:Hd;
      destruct (bind_data ds _) as [slots0 m0] eqn:Hrest;
      injection Hrun as <- <-; cbn [update_indices].
    + constructor.
      * rewrite (bind_data_updates _ _ _ _ j Hrest).
        intros (s & _ & Hs). apply lookup_delete_Some in Hs as [Hne Hs].
        apply Hne. eapply Hinj; eassumption.
      * eapply IH; [exact Hrest|]. intros s s' i Hs Hs'.
        apply lookup_delete_Some in Hs as [_ Hs].
        apply lookup_delete_Some in Hs' as [_ Hs']. eapply Hinj; eassumption.
    + eapply IH; eassumption.
Qed.

(** *** The join as a whole *)

Lemma data_children (g : list Node) (ds : list Datum) :
  children (data datum_of bind key g ds) =
  tag_from bind 0 g (slots (data datum_of bind key g ds)).
Proof.
  unfold data. destruct (index_nodes 0 g ∅ ∅) as [m0 dup].
  by destruct (bind_data ds m0) as [sl m'].
Qed.

Lemma data_slots (g : list Node) (ds : list Datum) :
  slot_datum <$> slots (data datum_of bind key g ds) = ds.
Proof.
  unfold data. destruct (index_nodes 0 g ∅ ∅) as [m0 dup].
  destruct (bind_data ds m0) as [sl m'] eqn:H2. cbn.
  eapply bind_data_datum, H2.
Qed.

Lemma data_updates (g : list Node) (ds : list Datum) :
  let j := data datum_of bind key g ds in
  NoDup (update_indices (slots j)) /\
  (forall i, i ∈ update_indices (slots j) -> i < length g) /\
  (forall k n, g !! k = Some n ->
     k ∈ exit j <-> k ∉ update_indices (slots j)).
Proof.
  unfold data. destruct (index_nodes 0 g ∅ ∅) as [m0 dup] eqn:H1.
  destruct (bind_data ds m0) as [sl m'] eqn:H2. cbn.
  apply index_nodes_spec in H1 as (G1 & _ & G3); [|set_solver..].
  assert (Hm0 : forall s i, m0 !! s = Some i ->
            exists n, g !! i = Some n /\ key_of n = s).
  { intros s i Hi. destruct (G1 s i Hi) as [Hi'|(k & n & -> & Hk & Hs)].
    - by rewrite lookup_empty in Hi'.
    - by exists n. }
  split_and!.
  - eapply bind_data_NoDup; [exact H2|]. intros s s' i Hs Hs'.
    destruct (Hm0 _ _ Hs) as (n & Hn & <-).
    destruct (Hm0 _ _ Hs') as (n' & Hn' & <-). congruence.
  - intros i Hi. apply (bind_data_updates _ _ _ _ i H2) in Hi as (s & _ & Hi).
    destruct (Hm0 _ _ Hi) as (n & Hn & _). by eapply lookup_lt_Some.
  - intros k n Hk.
    rewrite elem_of_union, G3, unbound_nodes_spec,
      (bind_data_updates _ _ _ _ k H2).
    assert (Hexit : (k ∈ (∅ : gset nat) \/
                     exists k0 n0, k = 0 + k0 /\ g !! k0 = Some n0 /\
                       m0 !! key_of n0 <> Some k) <->
                    m0 !! key_of n <> Some k).
    { split.
      - intros [?|(k0 & n0 & -> & Hk0 & Hne)]; [set_solver|].
        simpl in Hk. by simplify_eq.
      - intros Hne. right. by exists k, n. }
    assert (Hunb : (exists k0 n0, k = 0 + k0 /\ g !! k0 = Some n0 /\
                       m' !! key_of n0 = Some k) <->
                   m' !! key_of n = Some k).
    { split.
      - intros (k0 & n0 & -> & Hk0 & He). simpl in Hk. by simplify_eq.
      - intros He. by exists k, n. }
    rewrite Hexit, Hunb, (bind_data_remaining _ _ _ _ (key_of n) H2).
    assert (Hupd : (exists s, s ∈ key <$> ds /\ m0 !! s = Some k) <->
                   key_of n ∈ key <$> ds /\ m0 !! key_of n = Some k).
    { split.
      - intros (s & Hs & Hi). destruct (Hm0 _ _ Hi) as (n' & Hn' & <-).
        by simplify_eq.
      - intros [Hs Hi]. by exists (key_of n). }
    rewrite Hupd. case_decide as Hin.
    + split.
      * intros [Hne|?]; [|done]. by intros [_ ?].
      * intros Hno. left. intros He. by apply Hno.
    + split; [by intros _ [? _]|]. intros _.
      destruct (decide (m0 !! key_of n = Some k)); [by right | by left].
Qed.

(** *** The children after the chained calls *)

Lemma insertBefore_perm (new : @child Node) (ref : option nat)
    (cs : list child) :
  insertBefore new ref cs ≡ₚ new :: cs.
Proof.
  induction cs as [|c cs IH]; cbn [insertBefore]; [done|].
  destruct ref as [i|], (fst c) as [j|]; try case_decide;
    try done; rewrite IH; apply Permutation_swap.
Qed.

Lemma enter_append_perm (create : Datum -> Node) (j : @join Node Datum) :
  children (enter_append create j) ≡ₚ
  ((fun e => (None, create (fst e))) <$> enter_nodes (slots j)) ++ children j.
Proof.
  unfold enter_append. cbn [children]. generalize (children j).
  induction (enter_nodes (slots j)) as [|[d next] es IH]; intros cs; cbn; [done|].
  rewrite IH, insertBefore_perm. by rewrite Permutation_middle.
Qed.

Lemma filter_perm {A} (p : A -> bool) (l l' : list A) :
  l ≡ₚ l' -> List.filter p l ≡ₚ List.filter p l'.
Proof.
  induction 1 as [|a l l' _ IH|a b l|l1 l2 l3 _ IH1 _ IH2]; cbn.
  - done.
  - destruct (p a); [by constructor | done].
  - destruct (p a), (p b); try done. apply Permutation_swap.
  - by rewrite IH1.
Qed.

Section Chain.

Variable create : Datum -> Node.
Variable f : Node -> Node.
Hypothesis datum_bind : forall n d, datum_of (bind n d) = d.
Hypothesis datum_create : forall d, datum_of (create d) = d.
Hypothesis datum_f : forall n, datum_of (f n) = datum_of n.

Abbreviation merged := (D3.merged f).

Lemma created_data (j : @join Node Datum) (es : list (Datum * option nat)) :
  datum_of <$> (snd <$> List.filter (kept j)
     (merged j <$> ((fun e => (None, create (fst e))) <$> es))) = fst <$> es.
Proof.
  induction es as [|[d next] es IH]; [done|].
  cbn. rewrite datum_f, datum_create. f_equal. exact IH.
Qed.

Lemma tagged_data (j : @join Node Datum) (g : list Node) : forall a,
  (forall k n, g !! k = Some n ->
     a + k ∈ exit j <-> a + k ∉ update_indices (slots j)) ->
  datum_of <$> (snd <$> List.filter (kept j)
     (merged j <$> tag_from bind a g (slots j))) =
  omap (bound (slots j)) (seq a (length g)).
Proof.
  induction g as [|n g IH]; intros a Hexit; [done|].
  cbn [tag_from length seq omap list_omap fmap list_fmap].
  fold (omap (bound (slots j)) (seq (S a) (length g))).
  assert (Ha : a ∈ exit j <-> a ∉ update_indices (slots j)).
  { specialize (Hexit 0 n eq_refl). by replace (a + 0) with a in Hexit by lia. }
  assert (IH' := IH (S a)). rewrite <- IH'.
  2:{ intros k n' Hk. specialize (Hexit (S k) n' Hk).
      by replace (a + S k) with (S a + k) in Hexit by lia. }
  unfold merged at 1, in_merge at 1. cbn [fst snd].
  destruct (bound (slots j) a) as [d|] eqn:Hb; cbn [List.filter].
  - assert (Hin : a ∉ exit j).
    { rewrite Ha. intros Hno. apply bound_None in Hno. congruence. }
    unfold kept at 1, in_exit at 1. cbn [fst].
    rewrite bool_decide_eq_false_2 by done. cbn.
    by rewrite datum_f, datum_bind.
  - assert (Hin : a ∈ exit j) by (by apply Ha, bound_None).
    unfold kept at 1, in_exit at 1. cbn [fst].
    by rewrite bool_decide_eq_true_2.
Qed.

(** The markers left by the chain carry exactly the joined data, each
    datum once. *)
Theorem reconcile_data (g : list Node) (ds : list Datum) :
  datum_of <$> nodes (exit_remove (merge_each f
      (enter_append create (data datum_of bind key g ds)))) ≡ₚ ds.
Proof.
  set (j := data datum_of bind key g ds).
  destruct (data_updates g ds) as (Hnodup & Hlt & Hexit). fold j in Hnodup, Hlt, Hexit.
  unfold nodes, exit_remove, merge_each. cbn [children slots exit].
  change (datum_of <$> (snd <$> List.filter (kept j)
            (merged j <$> children (enter_append create j))) ≡ₚ ds).
  rewrite (filter_perm _ _ _
             (fmap_Permutation (merged j) _ _ (enter_append_perm create j))).
  rewrite fmap_app, List.filter_app, !fmap_app.
  rewrite created_data, enter_nodes_data.
  replace (children j) with (tag_from bind 0 g (slots j))
    by (symmetry; apply data_children).
  rewrite tagged_data by (intros k n Hk; apply (Hexit k n Hk)).
  rewrite bound_update_data.
  - rewrite <- slots_split. unfold j. by rewrite data_slots.
  - apply NoDup_seq.
  - done.
  - intros i Hi. apply elem_of_seq. specialize (Hlt i Hi). lia.
Qed.

End Chain.

End JoinFacts.
End D3Facts.

(* ===================================================================== *)
(** ** Facts about the methods *)
(* ===================================================================== *)

Lemma isPriceInRange_falsy (apartment : listing) (maxPrice : value) :
  ToBoolean maxPrice = false -> isPriceInRange apartment maxPrice = Normal true.
Proof. intros H. unfold isPriceInRange. by rewrite H. Qed.

Lemma priced_evaluates (apartment : listing) (maxPrice : value) :
  priced apartment -> exists b, isPriceInRange apartment maxPrice = Normal b.
Proof.
  intros [Hfin|[r Hr]]; unfold isPriceInRange;
    destruct (ToBoolean maxPrice); cbn; eauto.
  - rewrite Hfin. eauto.
  - destruct (Number_isFinite _); eauto. rewrite Hr. cbn. eauto.
Qed.

Lemma priced_label (apartment : listing) (label : string) :
  price_per_person apartment = VString label -> priced apartment.
Proof.
  intros Hl. right. rewrite Hl. unfold parsePriceRange.
  destruct (negb _); [by eexists|].
  destruct (split "-" (removeAll is_s label)) as [|p0 [|p1 [|p2 ps]]];
    by eexists.
Qed.

Lemma filterC_filter {A} (p : A -> completion bool) (l : list A) :
  Forall (fun a => exists b, p a = Normal b) l ->
  filterC p l =
  Normal (List.filter
            (fun a => match p a with Normal true => true | _ => false end) l).
Proof.
  induction 1 as [|a l [b Hb] _ IH]; [done|].
  cbn. rewrite Hb, IH. cbn. by destruct b.
Qed.

Lemma filter_all {A} (p : A -> bool) (l : list A) :
  (forall a, p a = true) -> List.filter p l = l.
Proof.
  intros Hp. induction l as [|a l IH]; [done|]. cbn. by rewrite Hp, IH.
Qed.

Lemma filtered_by_threshold (threshold : value) (loaded : list listing) :
  Forall (evaluates threshold) loaded ->
  filterC (fun apartment => isPriceInRange apartment threshold) loaded =
  Normal (List.filter (passes threshold) loaded).
Proof. apply filterC_filter. Qed.

Lemma priced_all_evaluate (threshold : value) (loaded : list listing) :
  Forall priced loaded -> Forall (evaluates threshold) loaded.
Proof.
  intros Hp. eapply Forall_impl; [exact Hp|].
  intros a Ha. by apply priced_evaluates.
Qed.

Lemma falsy_all_evaluate (threshold : value) (loaded : list listing) :
  ToBoolean threshold = false -> Forall (evaluates threshold) loaded.
Proof.
  intros Ht. apply Forall_forall. intros a _. exists true.
  by apply isPriceInRange_falsy.
Qed.

Lemma getFilteredApartments_spec (st : app) :
  Forall priced (apartments st) ->
  getFilteredApartments st =
  (Normal (List.filter (passes (currentPriceFilter st)) (apartments st)), st).
Proof.
  intros Hp. unfold getFilteredApartments, mbind, M_bind, get.
  destruct (apartments st) as [|a l] eqn:Hl; [done|]. rewrite <- Hl in *.
  destruct (ToBoolean (currentPriceFilter st)) eqn:Ht.
  - unfold lift. by rewrite filtered_by_threshold by (by apply priced_all_evaluate).
  - rewrite filter_all; [done|].
    intros b. unfold passes. by rewrite isPriceInRange_falsy.
Qed.

Lemma datum_rebind (m : marker) (d : listing) : datum (rebind m d) = d.
Proof. done. Qed.

Lemma datum_new_marker (d : listing) : datum (new_marker d) = d.
Proof. done. Qed.

Lemma datum_place (map : LeafletMap) (m : marker) : datum (place map m) = datum m.
Proof. done. Qed.

Lemma markers_set_markers (ms : list marker) (st : app) :
  markers (set_markers ms st) = ms.
Proof. by destruct st. Qed.

(** After [renderMarkers] the markers carry exactly the listings passed
    in, one marker each. *)
Lemma renderMarkers_data (shown : list listing) (st : app) :
  datum <$> markers (renderMarkers shown st) ≡ₚ shown.
Proof.
  unfold renderMarkers. destruct shown as [|a l].
  - by rewrite markers_set_markers.
  - rewrite markers_set_markers.
    apply D3Facts.reconcile_data;
      [apply datum_rebind | apply datum_new_marker | apply datum_place].
Qed.

Lemma renderApartments_data (st : app) :
  apartments st <> [] ->
  datum <$> markers (FirstRevision.renderApartments st) ≡ₚ apartments st.
Proof.
  intros Hne. unfold FirstRevision.renderApartments.
  destruct (apartments st) as [|a l]; [done|].
  rewrite markers_set_markers.
  apply D3Facts.reconcile_data;
    [apply datum_rebind | apply datum_new_marker | apply datum_place].
Qed.

Lemma shows_intro (threshold : value) (loaded : list listing)
    (old new : list marker) :
  datum <$> new ≡ₚ List.filter (passes threshold) loaded ->
  shows threshold loaded old new.
Proof.
  intros Hperm.
  assert (Hiff : forall l, l ∈ datum <$> new <->
            l ∈ loaded /\ isPriceInRange l threshold = Normal true).
  { intros l. rewrite Hperm, list_elem_of_In, List.filter_In, <- list_elem_of_In.
    unfold passes. destruct (isPriceInRange l threshold) as [[|]|]; naive_solver. }
  split; [done | done | | |].
  - intros l Hl. by apply Hiff.
  - intros m _ Hgone m' Hm' Heq. apply Hgone. rewrite <- Heq.
    apply list_elem_of_fmap_2. rewrite <- Hperm. by apply list_elem_of_fmap_2.
  - intros Hnone. rewrite Hnone in Hperm. apply Permutation_nil_r in Hperm.
    by destruct new.
Qed.

(* ===================================================================== *)
(** ** Price parsing and the price predicate *)
(* ===================================================================== *)

Lemma removeAll_app (drop : ascii -> bool) (a b : string) :
  removeAll drop (a ++ b) = removeAll drop a ++ removeAll drop b.
Proof.
  induction a as [|c a IH]; [done|].
  change (String c a ++ b) with (String c (a ++ b)).
  cbn [removeAll]. rewrite IH. by destruct (drop c).
Qed.

Lemma hyphens_removeAll_s (s : string) : hyphens (removeAll is_s s) = hyphens s.
Proof.
  induction s as [|c s IH]; [done|]. cbn. unfold is_s at 1.
  destruct (Ascii.eqb_spec c "s") as [->|Hs]; [done|].
  cbn. by rewrite IH.
Qed.

Lemma split_length (s : string) : length (split "-" s) = S (hyphens s).
Proof.
  induction s as [|c s IH]; [done|]. cbn.
  destruct (c =? "-")%char; cbn; [by rewrite IH|].
  destruct (split "-" s); [done|]. cbn in *. lia.
Qed.

Lemma split_none (s : string) : hyphens s = 0 -> split "-" s = [s].
Proof.
  induction s as [|c s IH]; [done|]. cbn.
  destruct (c =? "-")%char; [done|]. intros H. by rewrite (IH H).
Qed.

Lemma split_first (a b : string) :
  hyphens a = 0 -> split "-" (a ++ String "-" b) = a :: split "-" b.
Proof.
  induction a as [|c a IH]; [done|].
  change (String c a ++ String "-" b) with (String c (a ++ String "-" b)).
  cbn [split hyphens].
  destruct (c =? "-")%char; [done|]. intros H. by rewrite (IH H).
Qed.

Lemma parsePriceRange_string (s : string) :
  s <> "" ->
  parsePriceRange (VString s) =
  Normal match split "-" (removeAll is_s s) with
         | [part] => point (parseInt (removeAll is_currency part))
         | [part0; part1] =>
             {| PriceRange.min := parseInt (removeAll is_currency part0);
                PriceRange.max := parseInt (removeAll is_currency part1) |}
         | _ => unbounded
         end.
Proof.
  intros Hs. unfold parsePriceRange. destruct s as [|c s]; [done|].
  cbn [ToBoolean negb].
  by destruct (split "-" (removeAll is_s (String c s))) as [|p0 [|p1 [|p2 ps]]].
Qed.

(** A price label that holds no numeric value is not mapped to the
    unbounded range: "Call for pricing" has no digit and no hyphen, and
    [parsePriceRange] returns the point range of NaN. *)
Lemma parsePriceRange_unparseable_counterexample :
  ~ (forall s, has_digit s = false ->
       parsePriceRange (VString s) = Normal unbounded).
Proof.
  intros H. specialize (H "Call for pricing" eq_refl). vm_compute in H.
  discriminate H.
Qed.

(** What [parsePriceRange] computes, segment by segment: it removes every
    [s], splits on the hyphens and reads each segment with [parseInt] after
    removing [$] and [,]. A non-empty label without hyphen gives the point
    range of what [parseInt] reads, a label with one hyphen the pair of the
    two readings, and the empty label or a label with two or more hyphens
    the unbounded range. *)
Theorem parsePriceRange_segments :
  (forall s, s <> "" -> hyphens s = 0 ->
     parsePriceRange (VString s) = Normal (point (parseInt (strip s)))) /\
  (forall a b, hyphens a = 0 -> hyphens b = 0 ->
     parsePriceRange (VString (a ++ String "-" b)) =
     Normal {| PriceRange.min := parseInt (strip a);
               PriceRange.max := parseInt (strip b) |}) /\
  (forall s, 2 <= hyphens s -> parsePriceRange (VString s) = Normal unbounded) /\
  parsePriceRange (VString "") = Normal unbounded /\
  parsePriceRange (VString "900s") = Normal (point (of_Z 900)) /\
  parsePriceRange (VString "$900s-$2,600s") =
    Normal {| PriceRange.min := of_Z 900; PriceRange.max := of_Z 2600 |}.
Proof.
  split_and!.
  - intros s Hs Hh. rewrite parsePriceRange_string by done.
    rewrite split_none; [done|]. by rewrite hyphens_removeAll_s.
  - intros a b Ha Hb.
    rewrite parsePriceRange_string by (by destruct a).
    rewrite removeAll_app.
    change (removeAll is_s (String "-" b)) with (String "-" (removeAll is_s b)).
    rewrite split_first by (by rewrite hyphens_removeAll_s).
    rewrite split_none by (by rewrite hyphens_removeAll_s). done.
  - intros s Hh. rewrite parsePriceRange_string by (intros ->; cbn in Hh; lia).
    pose proof (split_length (removeAll is_s s)) as Hlen.
    rewrite hyphens_removeAll_s in Hlen.
    destruct (split "-" (removeAll is_s s)) as [|p0 [|p1 [|p2 ps]]];
      cbn in Hlen; try done; lia.
  - done.
  - by vm_compute.
  - by vm_compute.
Qed.

Lemma parsePriceRange_segments_witness :
  parsePriceRange (VString "1,200s") = Normal (point (parseInt (strip "1,200s"))).
Proof.
  apply (proj1 parsePriceRange_segments "1,200s"); [discriminate | reflexivity].
Defined.

(** C2 at the failing input. On the three labels of the specification
    [parsePriceRange] gives 900..900, 900..2600 and the unbounded range,
    and a label with three segments gives the unbounded range as well. A
    label that cannot be parsed and has a single segment, "Call for
    pricing", is read by [parseInt] all the same: the result is the range
    NaN..NaN, not the unbounded range. A listing with that label and no
    numeric minimum fails every threshold, where a listing without label
    passes. *)
Theorem parsePriceRange_unparseable_label :
  parsePriceRange (VString "900s") = Normal (point (of_Z 900)) /\
  parsePriceRange (VString "$900s-$2,600s") =
    Normal {| PriceRange.min := of_Z 900; PriceRange.max := of_Z 2600 |} /\
  parsePriceRange (VString "") = Normal unbounded /\
  parsePriceRange (VString "1-2-3") = Normal unbounded /\
  parsePriceRange (VString "Call for pricing") = Normal (point NaN) /\
  parsePriceRange (VString "Call for pricing") <> Normal unbounded /\
  isPriceInRange sample_blank (VNumber (of_Z 5000)) = Normal true /\
  isPriceInRange sample_call (VNumber (of_Z 5000)) = Normal false.
Proof. split_and!; by vm_compute. Qed.

(** C3: [isPriceInRange] is true when no threshold is set (a falsy
    threshold); otherwise it is true exactly when the listing's minimum is
    at most the threshold, the minimum being [price_min] when that is a
    finite number and the [min] of [parsePriceRange] on the display price
    otherwise. A listing with [price_min] 850 passes the threshold 900 and
    one with [price_min] 950 does not. *)
Theorem isPriceInRange_spec (apartment : listing) (maxPrice : value) :
  isPriceInRange apartment maxPrice =
    (if ToBoolean maxPrice
     then minimum ← listingMinimum apartment;
          mret (le minimum (ToNumber maxPrice))
     else Normal true) /\
  isPriceInRange (with_price_min (VNumber (of_Z 850)) apartment)
    (VNumber (of_Z 900)) = Normal true /\
  isPriceInRange (with_price_min (VNumber (of_Z 950)) apartment)
    (VNumber (of_Z 900)) = Normal false.
Proof.
  split_and!; [|done..].
  unfold isPriceInRange, listingMinimum.
  destruct (ToBoolean maxPrice); [|done]. cbn [negb].
  destruct (price_min apartment) as [| |b|[z|i| |z m e]|s]; cbn; try done;
    by destruct (parsePriceRange (price_per_person apartment)).
Qed.

(** *** Boundary data *)

(** C5: when the boundary request for a region fails (a status outside
    200..299 such as 500, a rejected fetch, or a body that does not parse),
    [getNeighborhoodData] completes normally with the placeholder feature
    collection that carries the requested name and empty coordinates. *)
Theorem getNeighborhoodData_fallback (neighname : string) (reply : fetched json) :
  failed reply ->
  getNeighborhoodData neighname reply =
  Normal
    (JObj [("type", JStr "FeatureCollection");
           ("features",
            JArr [JObj [("type", JStr "Feature");
                        ("properties", JObj [("neighname", JStr neighname)]);
                        ("geometry",
                         JObj [("type", JStr "MultiPolygon");
                               ("coordinates",
                                JArr [JArr [JArr []]])])]])]).
Proof.
  destruct reply as [|r]; [done|]. unfold getNeighborhoodData. cbn.
  intros [Hok|[e He]].
  - by rewrite Hok.
  - destruct (ok r); [|done]. by rewrite He.
Qed.

Lemma getNeighborhoodData_fallback_witness :
  getNeighborhoodData "UT" (Resolved {| status := 500; body := Normal JNull |}) =
  Normal (getFallbackNeighborhoodData "UT").
Proof.
  apply (getNeighborhoodData_fallback "UT"
           (Resolved {| status := 500; body := Normal JNull |})).
  left. reflexivity.
Defined.

(* ===================================================================== *)
(** ** Rendering under the price filter *)
(* ===================================================================== *)

Lemma renderMarkers_frame (shown : list listing) (st : app) :
  renderMarkers shown st = set_markers (markers (renderMarkers shown st)) st.
Proof. unfold renderMarkers. by destruct shown. Qed.

Lemma updateInfoPanel_frame (sel : option listing) (st : app) :
  updateInfoPanel sel st = set_infoPanel (infoPanel (updateInfoPanel sel st)) st.
Proof.
  unfold updateInfoPanel. destruct st as [? ? ? [p|] ? ? ? ? ? ? ? ? ?];
    by destruct sel.
Qed.

Lemma passes_true (threshold : value) (l : listing) :
  passes threshold l = true <-> isPriceInRange l threshold = Normal true.
Proof.
  unfold passes. destruct (isPriceInRange l threshold) as [[|]|]; naive_solver.
Qed.

(** Every marker left by [renderMarkers] shows one of the listings passed
    in. *)
Lemma renderMarkers_shown (shown : list listing) (st : app) (m : marker) :
  m ∈ markers (renderMarkers shown st) -> datum m ∈ shown.
Proof.
  intros Hm. rewrite <- (renderMarkers_data shown st).
  by apply list_elem_of_fmap_2.
Qed.

(** When the predicate ends normally on every listing, [filterByPrice]
    comes down to storing the filter and rendering the listings that pass
    it: the selected marker it looks for afterwards, when there is one,
    shows a listing that passes. *)
Lemma filterByPrice_spec (maxPrice : value) (st : app) :
  Forall (evaluates (stored maxPrice)) (apartments st) ->
  filterByPrice maxPrice st =
  (Normal tt,
   renderMarkers (List.filter (passes (stored maxPrice)) (apartments st))
     (set_currentPriceFilter (stored maxPrice) st)).
Proof.
  intros Hp. unfold filterByPrice, mbind, M_bind, modify, get, lift.
  fold (stored maxPrice).
  cbn [currentPriceFilter set_currentPriceFilter apartments].
  rewrite filtered_by_threshold by done.
  set (shown := List.filter (passes (stored maxPrice)) (apartments st)).
  set (st1 := set_currentPriceFilter (stored maxPrice) st).
  destruct (List.find selected (markers (renderMarkers shown st1)))
    as [m|] eqn:Hfind; [|done].
  apply List.find_some in Hfind as [Hm _].
  apply list_elem_of_In, renderMarkers_shown in Hm.
  apply list_elem_of_In, List.filter_In in Hm as [_ Hpass].
  apply passes_true in Hpass.
  rewrite (renderMarkers_frame shown st1).
  cbn [currentPriceFilter set_markers st1 set_currentPriceFilter].
  by rewrite Hpass.
Qed.

(** With readable prices, every render pass ([renderMap], the overlay
    frame callback, and [filterByPrice] under the filter it stores) ends
    normally with markers that show exactly the loaded listings passing
    [isPriceInRange] under the current threshold, each once: a subset of
    the loaded set, with the marker of every listing whose name left the
    filtered set removed, and no marker at all when nothing passes. The
    first revision, which has no filter, shows every loaded listing as
    soon as one is loaded. *)
Theorem rendered_markers_match_filter (st : app) :
  Forall priced (apartments st) ->
  (exists st', renderMap st = (Normal tt, st') /\
     shows (currentPriceFilter st) (apartments st) (markers st) (markers st')) /\
  (exists st', overlayFrame st = (Normal tt, st') /\
     shows (currentPriceFilter st) (apartments st) (markers st) (markers st')) /\
  (forall maxPrice, exists st', filterByPrice maxPrice st = (Normal tt, st') /\
     currentPriceFilter st' = stored maxPrice /\
     shows (stored maxPrice) (apartments st) (markers st) (markers st')) /\
  (apartments st <> [] ->
   shows VNull (apartments st) (markers st)
     (markers (FirstRevision.renderApartments st))).
Proof.
  intros Hp. split_and!; cycle 3.
  { intros Hne. apply shows_intro. rewrite renderApartments_data by done.
    by rewrite filter_all. }
  - eexists. split.
    + unfold renderMap, mbind, M_bind, modify.
      rewrite getFilteredApartments_spec by done. reflexivity.
    + apply shows_intro. rewrite updateInfoPanel_frame. cbn [markers set_infoPanel].
      apply renderMarkers_data.
  - eexists. split.
    + unfold overlayFrame, mbind, M_bind, modify.
      rewrite getFilteredApartments_spec by done. reflexivity.
    + apply shows_intro. cbn [currentPriceFilter apartments set_overlay
        set_overlayRuns set_scheduleUpdate].
      apply renderMarkers_data.
  - intros maxPrice. eexists.
    split; [by apply filterByPrice_spec, priced_all_evaluate|]. split.
    + by rewrite renderMarkers_frame.
    + apply shows_intro, renderMarkers_data.
Qed.

Lemma rendered_markers_match_filter_witness :
  exists st', filterByPrice (VString "900") sample_loaded = (Normal tt, st') /\
    currentPriceFilter st' = stored (VString "900") /\
    shows (stored (VString "900")) (apartments sample_loaded)
      (markers sample_loaded) (markers st').
Proof.
  assert (Hp : Forall priced (apartments sample_loaded)).
  { change (Forall priced [sample_A; sample_B; sample_C]).
    apply List.Forall_cons; [left; reflexivity|].
    apply List.Forall_cons; [left; reflexivity|].
    apply List.Forall_cons; [|apply List.Forall_nil].
    right. eexists. reflexivity. }
  exact (proj1 (proj2 (proj2 (rendered_markers_match_filter sample_loaded Hp)))
           (VString "900")).
Defined.

(** C1 at the failing input: the listings A (minimum 950), N (the number
    900 as its price label, no numeric minimum) and C are loaded and
    rendered, and the threshold changes to 900. [filterByPrice] stores the
    filter and throws a TypeError while it filters, when [parsePriceRange]
    reaches the label of N, before any marker is touched: the three markers
    stay, among them the marker of A, which fails the stored filter. The
    render passes that follow, [renderMap] and the overlay frame callback,
    throw in the same way and leave the markers as they are. *)
Theorem filterByPrice_numeric_label :
  let replaceError := TypeError "priceString.replace is not a function" in
  let after := snd (filterByPrice (VString "900") sample_numeric) in
  (name ∘ datum <$> markers sample_numeric) = ["A"; "N"; "C"] /\
  isPriceInRange sample_N (VNumber (of_Z 900)) = Throw replaceError /\
  fst (filterByPrice (VString "900") sample_numeric) = Throw replaceError /\
  currentPriceFilter after = VNumber (of_Z 900) /\
  apartments after = [sample_A; sample_N; sample_C] /\
  (name ∘ datum <$> markers after) = ["A"; "N"; "C"] /\
  isPriceInRange sample_A (currentPriceFilter after) = Normal false /\
  fst (renderMap after) = Throw replaceError /\
  markers (snd (renderMap after)) = markers after /\
  fst (overlayFrame after) = Throw replaceError /\
  markers (snd (overlayFrame after)) = markers after /\
  markers (step (PriceChange "900") sample_numeric) = markers sample_numeric.
Proof. split_and!; by vm_compute. Qed.

(** *** Filtering and the selection *)

(** With prices the predicate can read, [filterByPrice] never writes the
    detail panel: the marker of a listing that fails the new filter is
    removed by [renderMarkers] before the method looks for the selected
    marker, so the branch that clears the selection is never taken. *)
Lemma filterByPrice_keeps_panel (maxPrice : value) (st : app) :
  Forall (evaluates (stored maxPrice)) (apartments st) ->
  infoPanel (snd (filterByPrice maxPrice st)) = infoPanel st.
Proof.
  intros Hp. rewrite filterByPrice_spec by done. cbn [snd].
  by rewrite renderMarkers_frame.
Qed.

(** C4 at the failing input: listing A (minimum 950) is selected and shown
    in the detail panel; the threshold changes to 900. A fails the new
    filter and its marker is removed, so no marker is flagged selected,
    but the detail panel still shows A instead of the empty state. *)
Theorem filterByPrice_selected_filtered_out :
  let after := step (PriceChange "900") sample_selected in
  infoPanel sample_selected = Some (ApartmentDetails sample_A) /\
  (selected <$> markers sample_selected) = [true; false; false] /\
  isPriceInRange sample_A (currentPriceFilter after) = Normal false /\
  (name ∘ datum <$> markers after) = ["B"; "C"] /\
  (selected <$> markers after) = [false; false] /\
  infoPanel after = Some (ApartmentDetails sample_A) /\
  infoPanel after <> Some EmptyState.
Proof. by vm_compute. Qed.

(** *** A threshold of zero *)

Lemma clearSelection_filter (st : app) :
  currentPriceFilter (clearSelection st) = currentPriceFilter st.
Proof.
  unfold clearSelection. by rewrite updateInfoPanel_frame.
Qed.

(** Whatever happens afterwards, the filter [filterByPrice] stored stays. *)
Lemma filterByPrice_stores (maxPrice : value) (st : app) :
  currentPriceFilter (snd (filterByPrice maxPrice st)) = stored maxPrice.
Proof.
  unfold filterByPrice, mbind, M_bind, modify, get, lift.
  fold (stored maxPrice).
  set (st1 := set_currentPriceFilter (stored maxPrice) st).
  destruct (filterC _ (apartments st1)) as [shown|e]; [|done].
  rewrite (renderMarkers_frame shown st1).
  set (st2 := set_markers _ st1).
  destruct (List.find selected (markers st2)) as [m|]; [|done].
  destruct (isPriceInRange (datum m) (currentPriceFilter st2)) as [[|]|e];
    try done.
  cbn [snd]. by rewrite clearSelection_filter.
Qed.

(** C10, as stated, fails for the selector value ["0"]: a non-empty
    string is truthy, so [filterByPrice] stores the number it converts to,
    zero, and not the absence of a filter. *)
Lemma filterByPrice_zero_string_counterexample :
  currentPriceFilter
    (snd (filterByPrice (VString "0") (constructed sample_map (Some PageMarkup))))
  <> VNull.
Proof. rewrite filterByPrice_stores. by vm_compute. Qed.

(** C10, amended: a threshold of zero never excludes a listing.
    [isPriceInRange] answers true for every listing under a zero threshold;
    [filterByPrice] given the number 0 stores no filter ([null]), and given
    the string ["0"] it stores the number zero, which is falsy and so read
    as no filter by [isPriceInRange] and [getFilteredApartments]; in both
    cases the call ends normally with a marker for every loaded listing. *)
Theorem zero_threshold_excludes_nothing (st : app) (sign : bool) :
  (forall apartment,
     isPriceInRange apartment (VNumber (S754_zero sign)) = Normal true) /\
  stored (VNumber (S754_zero sign)) = VNull /\
  stored (VString "0") = VNumber pos_zero /\
  ToBoolean (stored (VString "0")) = false /\
  (exists st', filterByPrice (VNumber (S754_zero sign)) st = (Normal tt, st') /\
     currentPriceFilter st' = VNull /\
     datum <$> markers st' ≡ₚ apartments st /\
     getFilteredApartments st' = (Normal (apartments st), st')) /\
  (exists st', filterByPrice (VString "0") st = (Normal tt, st') /\
     currentPriceFilter st' = VNumber pos_zero /\
     datum <$> markers st' ≡ₚ apartments st /\
     getFilteredApartments st' = (Normal (apartments st), st')).
Proof.
  assert (Hall : forall t, ToBoolean t = false ->
            List.filter (passes t) (apartments st) = apartments st).
  { intros t Ht. apply filter_all. intros a. apply passes_true.
    by apply isPriceInRange_falsy. }
  assert (Hget : forall t st', ToBoolean t = false ->
            currentPriceFilter st' = t -> apartments st' = apartments st ->
            getFilteredApartments st' = (Normal (apartments st), st')).
  { intros t st' Ht Hcur Hap.
    unfold getFilteredApartments, mbind, M_bind, get. rewrite Hap, Hcur, Ht.
    by destruct (apartments st). }
  split_and!; try done.
  - eexists. split; [by apply filterByPrice_spec, falsy_all_evaluate|].
    change (stored (VNumber (S754_zero sign))) with VNull.
    rewrite (Hall VNull) by done. split_and!.
    + by rewrite renderMarkers_frame.
    + apply renderMarkers_data.
    + apply (Hget VNull); [done | | ]; by rewrite renderMarkers_frame.
  - eexists. split; [by apply filterByPrice_spec, falsy_all_evaluate|].
    change (stored (VString "0")) with (VNumber pos_zero).
    rewrite (Hall (VNumber pos_zero)) by done. split_and!.
    + by rewrite renderMarkers_frame.
    + apply renderMarkers_data.
    + apply (Hget (VNumber pos_zero)); [done | | ]; by rewrite renderMarkers_frame.
Qed.

(* ===================================================================== *)
(** ** Data loading *)
(* ===================================================================== *)

Lemma getNeighborhoodData_total (neighname : string) (reply : fetched json) :
  exists data, getNeighborhoodData neighname reply = Normal data.
Proof.
  unfold getNeighborhoodData. destruct reply as [|r]; cbn; [eauto|].
  destruct (ok r); [|eauto]. destruct (body r); cbn; eauto.
Qed.

(** A failed listings request sends [loadData] to its handler with the
    state untouched. *)
Lemma loadData_failed (apartmentsReply : fetched (list listing))
    (westUniversityReply utCampusReply : fetched json) (st : app) :
  failed apartmentsReply ->
  loadData apartmentsReply westUniversityReply utCampusReply st =
  (renderMap;; modify (showToast loadFailedNotice)) st.
Proof.
  intros Hfail. unfold loadData, try_catchM.
  destruct apartmentsReply as [|r]; [done|].
  unfold mbind at 1, M_bind at 1, lift at 1. cbn [await].
  destruct (getNeighborhoodData_total "WEST UNIVERSITY" westUniversityReply)
    as [west Hwest].
  destruct (getNeighborhoodData_total "UT" utCampusReply) as [ut Hut].
  unfold mbind at 1, M_bind at 1, lift at 1. rewrite Hwest.
  unfold mbind at 1, M_bind at 1, lift at 1. rewrite Hut.
  unfold mbind at 1, M_bind at 1.
  destruct Hfail as [Hok|[e He]].
  - by rewrite Hok.
  - destruct (ok r); [|done]. unfold mret at 1, M_ret at 1.
    unfold mbind at 1, M_bind at 1, lift at 1. by rewrite He.
Qed.

Lemma getFilteredApartments_reads (st : app) :
  exists c, getFilteredApartments st = (c, st).
Proof.
  unfold getFilteredApartments, mbind, M_bind, get.
  destruct (apartments st); [by eexists|].
  destruct (ToBoolean (currentPriceFilter st)); by eexists.
Qed.

(** [renderMap] throws before it writes anything, or renders some list of
    listings and resets the panel. *)
Lemma renderMap_cases (st : app) :
  (exists e, renderMap st = (Throw e, st)) \/
  (exists shown,
     renderMap st = (Normal tt, updateInfoPanel None (renderMarkers shown st))).
Proof.
  unfold renderMap, mbind, M_bind, modify.
  destruct (getFilteredApartments_reads st) as [[shown|e] ->]; eauto.
Qed.

Lemma renderMap_keeps_data (st : app) :
  apartments (snd (renderMap st)) = apartments st /\
  westUniversityNeighborhood (snd (renderMap st)) = westUniversityNeighborhood st /\
  utCampusNeighborhood (snd (renderMap st)) = utCampusNeighborhood st.
Proof.
  destruct (renderMap_cases st) as [[e ->]|[shown ->]]; [done|].
  cbn [snd]. by rewrite updateInfoPanel_frame, renderMarkers_frame.
Qed.

Lemma renderMap_empty (st : app) :
  apartments st = [] ->
  renderMap st = (Normal tt, updateInfoPanel None (set_markers [] st)).
Proof.
  intros He. unfold renderMap, mbind, M_bind, modify.
  rewrite getFilteredApartments_spec by (rewrite He; constructor).
  by rewrite He.
Qed.

(** C6: when the listings request fails (a status outside 200..299, a
    rejected fetch or a body that does not parse) and no listing is loaded,
    as at start-up, [loadData] ends normally: it runs the render pass, which
    leaves no marker and the empty-state panel, and then shows the notice
    once, as one new toast after those already there. *)
Theorem loadData_listings_failure (apartmentsReply : fetched (list listing))
    (westUniversityReply utCampusReply : fetched json) (st : app) :
  failed apartmentsReply ->
  apartments st = [] ->
  exists rendered st',
    renderMap st = (Normal tt, rendered) /\
    loadData apartmentsReply westUniversityReply utCampusReply st =
      (Normal tt, st') /\
    st' = showToast loadFailedNotice rendered /\
    toasts st' =
      (toasts st ++ [{| textContent := loadFailedNotice; show := false |}])%list /\
    apartments st' = [] /\
    markers st' = [] /\
    infoPanel st' = (fun _ => EmptyState) <$> infoPanel st.
Proof.
  intros Hfail He.
  exists (updateInfoPanel None (set_markers [] st)),
    (showToast loadFailedNotice (updateInfoPanel None (set_markers [] st))).
  split; [by apply renderMap_empty|]. split.
  { rewrite loadData_failed by done. unfold mbind, M_bind, modify.
    by rewrite renderMap_empty. }
  split; [done|]. unfold showToast, requestAnimationFrame.
  cbn [snd toasts set_lastHandle set_frameCallbacks set_toasts apartments
       markers infoPanel].
  rewrite updateInfoPanel_frame.
  cbn [toasts set_infoPanel set_markers apartments markers infoPanel].
  split_and!; try done.
  unfold updateInfoPanel. cbn [infoPanel set_markers].
  by destruct (infoPanel st) eqn:Hp; cbn; rewrite ?Hp.
Qed.

Lemma loadData_listings_failure_witness :
  exists rendered st',
    renderMap (constructed sample_map (Some PageMarkup)) = (Normal tt, rendered) /\
    loadData (Resolved {| status := 500; body := Normal [] |})
      sample_boundary sample_boundary (constructed sample_map (Some PageMarkup)) =
      (Normal tt, st') /\
    st' = showToast loadFailedNotice rendered /\
    toasts st' = [{| textContent := loadFailedNotice; show := false |}] /\
    apartments st' = [] /\
    markers st' = [] /\
    infoPanel st' = Some EmptyState.
Proof.
  apply (loadData_listings_failure
           (Resolved {| status := 500; body := Normal [] |})
           sample_boundary sample_boundary
           (constructed sample_map (Some PageMarkup))).
  - left. reflexivity.
  - reflexivity.
Defined.

(** C9: when the listings request fails in any way, [loadData] leaves
    [apartments] and both neighbourhood fields as they were, whatever the
    boundary requests returned: the assignments come after the listings
    response has been checked and decoded. On the first load the two
    neighbourhood fields therefore stay [null] even when both boundary
    requests succeeded. *)
Theorem loadData_failure_keeps_data (apartmentsReply : fetched (list listing))
    (westUniversityReply utCampusReply : fetched json) (st : app) :
  failed apartmentsReply ->
  let st' := snd (loadData apartmentsReply westUniversityReply utCampusReply st) in
  (apartments st' = apartments st /\
   westUniversityNeighborhood st' = westUniversityNeighborhood st /\
   utCampusNeighborhood st' = utCampusNeighborhood st) /\
  (forall m page, st = constructed m page ->
     apartments st' = [] /\
     westUniversityNeighborhood st' = None /\
     utCampusNeighborhood st' = None).
Proof.
  intros Hfail st'.
  assert (Hkeep : apartments st' = apartments st /\
            westUniversityNeighborhood st' = westUniversityNeighborhood st /\
            utCampusNeighborhood st' = utCampusNeighborhood st).
  { subst st'. rewrite loadData_failed by done.
    destruct (renderMap_keeps_data st) as (Ha & Hw & Hu).
    unfold mbind, M_bind, modify.
    destruct (renderMap st) as [[[]|e] st1]; cbn [snd] in *; [|done].
    unfold showToast, requestAnimationFrame. by cbn. }
  split; [done|]. intros m page ->. destruct Hkeep as (-> & -> & ->). done.
Qed.

Lemma loadData_failure_keeps_data_witness :
  let st' := snd (loadData (Resolved {| status := 503; body := Normal [sample_A] |})
                    sample_boundary sample_boundary
                    (constructed sample_map (Some PageMarkup))) in
  apartments st' = [] /\
  westUniversityNeighborhood st' = None /\
  utCampusNeighborhood st' = None.
Proof.
  apply (proj2 (loadData_failure_keeps_data
                  (Resolved {| status := 503; body := Normal [sample_A] |})
                  sample_boundary sample_boundary
                  (constructed sample_map (Some PageMarkup))
                  (or_introl eq_refl))
           sample_map (Some PageMarkup) eq_refl).
Defined.

(* ===================================================================== *)
(** ** Selection *)
(* ===================================================================== *)

Lemma filter_none {A} (p : A -> bool) (l : list A) :
  (forall a, a ∈ l -> p a = false) -> List.filter p l = [].
Proof.
  induction l as [|a l IH]; intros Hp; [done|]. cbn.
  rewrite (Hp a) by left. apply IH. intros b Hb. apply Hp. by right.
Qed.

(** Among markers with distinct keys, exactly one carries a given key that
    occurs. *)
Lemma unique_key (ms : list marker) (n : string) :
  NoDup (name ∘ datum <$> ms) ->
  n ∈ name ∘ datum <$> ms ->
  exists m, List.filter (fun m => String.eqb (name (datum m)) n) ms = [m] /\
            name (datum m) = n.
Proof.
  induction ms as [|m ms IH]; intros Hnd Hin; [by apply elem_of_nil in Hin|].
  rewrite fmap_cons in Hnd, Hin. apply NoDup_cons in Hnd as [Hm Hnd]. cbn.
  destruct (String.eqb_spec (name (datum m)) n) as [Heq|Hne].
  - exists m. split; [|done]. f_equal. apply filter_none. intros m' Hm'.
    apply String.eqb_neq. intros Heq'. apply Hm. cbn. rewrite Heq, <- Heq'.
    by apply (list_elem_of_fmap_2 (name ∘ datum)).
  - apply elem_of_cons in Hin as [Hin|Hin]; [by cbn in Hin|]. by apply IH.
Qed.

Lemma selectApartment_markers (apartment : listing) (st : app) :
  markers (selectApartment apartment st) =
  (fun m => classed_selected (String.eqb (name (datum m)) (name apartment)) m)
    <$> markers st.
Proof.
  unfold selectApartment. rewrite updateInfoPanel_frame.
  cbn [markers set_markers set_infoPanel].
  rewrite <- list_fmap_compose. apply list_fmap_ext. intros i m _. cbn.
  by destruct (String.eqb _ _).
Qed.

Lemma clearSelection_markers (st : app) :
  markers (clearSelection st) = classed_selected false <$> markers st.
Proof. unfold clearSelection. by rewrite updateInfoPanel_frame. Qed.

Lemma selectApartment_names (apartment : listing) (st : app) :
  marker_names (selectApartment apartment st) = marker_names st.
Proof.
  unfold marker_names. rewrite selectApartment_markers, <- list_fmap_compose.
  by apply list_fmap_ext.
Qed.

Lemma clearSelection_names (st : app) :
  marker_names (clearSelection st) = marker_names st.
Proof.
  unfold marker_names. rewrite clearSelection_markers, <- list_fmap_compose.
  by apply list_fmap_ext.
Qed.

Lemma filter_fmap {A B} (f : A -> B) (p : B -> bool) (l : list A) :
  List.filter p (f <$> l) = f <$> List.filter (fun a => p (f a)) l.
Proof.
  induction l as [|a l IH]; [done|]. cbn. rewrite IH. by destruct (p (f a)).
Qed.

Lemma selectApartment_selected (apartment : listing) (st : app) :
  selected_markers (selectApartment apartment st) =
  classed_selected true <$>
    List.filter (fun m => String.eqb (name (datum m)) (name apartment))
      (markers st).
Proof.
  unfold selected_markers. rewrite selectApartment_markers, filter_fmap. cbn.
  induction (markers st) as [|m ms IH]; [done|]. cbn.
  destruct (String.eqb _ _) eqn:He; [|done]. cbn. by rewrite IH, He.
Qed.

Lemma clearSelection_selected (st : app) : selected_markers (clearSelection st) = [].
Proof.
  unfold selected_markers. rewrite clearSelection_markers, filter_fmap. cbn.
  by rewrite filter_none.
Qed.

Lemma selectApartment_one (apartment : listing) (st : app) :
  NoDup (marker_names st) ->
  name apartment ∈ marker_names st ->
  exists m, selected_markers (selectApartment apartment st) = [m] /\
            name (datum m) = name apartment.
Proof.
  intros Hnd Hin. rewrite selectApartment_selected.
  destruct (unique_key (markers st) (name apartment) Hnd Hin) as (m & -> & Hm).
  by exists (classed_selected true m).
Qed.

(** Distinct listing names give distinct marker keys after a render. *)
Lemma renderMarkers_unique_names (shown : list listing) (st : app) :
  NoDup (name <$> shown) -> NoDup (marker_names (renderMarkers shown st)).
Proof.
  intros Hnd. unfold marker_names. rewrite list_fmap_compose.
  by rewrite renderMarkers_data.
Qed.

Lemma filter_unique_names (p : listing -> bool) (loaded : list listing) :
  NoDup (name <$> loaded) -> NoDup (name <$> List.filter p loaded).
Proof.
  induction loaded as [|a l IH]; [done|]. rewrite fmap_cons.
  intros [Ha Hl]%NoDup_cons. cbn. destruct (p a); [|by apply IH].
  rewrite fmap_cons. apply NoDup_cons. split; [|by apply IH].
  intros Hin. apply Ha. apply list_elem_of_fmap in Hin as (b & -> & Hb).
  apply list_elem_of_fmap_2.
  by apply list_elem_of_In, List.filter_In in Hb as [Hb%list_elem_of_In _].
Qed.

Lemma selection_step (e : event) (st : app) :
  selection_event e ->
  NoDup (marker_names st) ->
  length (selected_markers st) <= 1 ->
  NoDup (marker_names (step e st)) /\ length (selected_markers (step e st)) <= 1.
Proof.
  intros He Hnd Hlen.
  assert (Hsel : forall i m, markers st !! i = Some m ->
            NoDup (marker_names (selectApartment (datum m) st)) /\
            length (selected_markers (selectApartment (datum m) st)) <= 1).
  { intros i m Hm. rewrite selectApartment_names. split; [done|].
    destruct (selectApartment_one (datum m) st Hnd) as (m' & -> & _); [|done].
    apply (list_elem_of_fmap_2 (name ∘ datum)). by eapply list_elem_of_lookup_2. }
  destruct e as [| |i|i key| | |]; try done; cbn [step].
  - destruct (markers st !! i) as [m|] eqn:Hm; [by eapply Hsel | done].
  - destruct (markers st !! i) as [m|] eqn:Hm; [|done].
    destruct (_ || _); [by eapply Hsel | done].
  - rewrite clearSelection_names, clearSelection_selected. split; [done | cbn; lia].
Qed.

(** C7: with distinct listing names among the markers, selecting a
    rendered listing leaves exactly one marker flagged selected, the one
    whose key is that listing's name; clearing leaves none; and from a
    state with at most one selected marker every sequence of marker clicks
    and background clicks ends with at most one. *)
Theorem selection_at_most_one (st : app) :
  NoDup (marker_names st) ->
  (forall apartment, name apartment ∈ marker_names st ->
     exists m, selected_markers (selectApartment apartment st) = [m] /\
               name (datum m) = name apartment) /\
  (forall i m, markers st !! i = Some m ->
     exists m', selected_markers (step (MarkerClick i) st) = [m'] /\
                selected_markers (step (MarkerKey i "Enter") st) = [m'] /\
                name (datum m') = name (datum m)) /\
  selected_markers (clearSelection st) = [] /\
  selected_markers (step MapClick st) = [] /\
  (forall es, Forall selection_event es ->
     length (selected_markers st) <= 1 ->
     length (selected_markers (run es st)) <= 1).
Proof.
  intros Hnd. split_and!.
  - intros apartment Hin. by apply selectApartment_one.
  - intros i m Hm. cbn [step]. rewrite Hm.
    destruct (selectApartment_one (datum m) st Hnd) as (m' & Hm' & Hn); [|by eauto].
    apply (list_elem_of_fmap_2 (name ∘ datum)). by eapply list_elem_of_lookup_2.
  - apply clearSelection_selected.
  - apply clearSelection_selected.
  - intros es Hes. revert st Hnd.
    induction Hes as [|e es He _ IH]; intros st Hnd Hlen; [done|].
    cbn [run fold_left].
    destruct (selection_step e st He Hnd Hlen) as [Hnd' Hlen'].
    by apply IH.
Qed.

Lemma selection_at_most_one_witness :
  exists m', selected_markers (step (MarkerClick 1) sample_selected) = [m'] /\
             selected_markers (step (MarkerKey 1 "Enter") sample_selected) = [m'] /\
             name (datum m') = name sample_B.
Proof.
  assert (Hnd : NoDup (marker_names sample_selected)).
  { change (NoDup ["A"; "B"; "C"]).
    apply (bool_decide_unpack (NoDup ["A"; "B"; "C"])). vm_compute. exact I. }
  exact (proj1 (proj2 (selection_at_most_one sample_selected Hnd))
           1 (classed_selected false (place sample_map (new_marker sample_B)))
           eq_refl).
Defined.

(* ===================================================================== *)
(** ** Overlay scheduling *)
(* ===================================================================== *)

Lemma same_schedule_scheduled (st st' : app) :
  same_schedule st st' -> scheduled st -> scheduled st'.
Proof. intros [Hs Hp]. unfold scheduled. by rewrite Hs, Hp. Qed.

Lemma filterByPrice_schedule (maxPrice : value) (st : app) :
  same_schedule st (snd (filterByPrice maxPrice st)).
Proof.
  unfold filterByPrice, mbind, M_bind, modify, get, lift.
  set (st1 := set_currentPriceFilter _ st).
  destruct (filterC _ (apartments st1)) as [shown|e]; [|done].
  rewrite (renderMarkers_frame shown st1).
  set (st2 := set_markers _ st1).
  destruct (List.find selected (markers st2)) as [m|]; [|done].
  destruct (isPriceInRange (datum m) (currentPriceFilter st2)) as [[|]|e];
    try done.
  cbn [snd]. unfold clearSelection. by rewrite updateInfoPanel_frame.
Qed.

Lemma selectApartment_schedule (apartment : listing) (st : app) :
  same_schedule st (selectApartment apartment st).
Proof. unfold selectApartment. by rewrite updateInfoPanel_frame. Qed.

Lemma clearSelection_schedule (st : app) : same_schedule st (clearSelection st).
Proof. unfold clearSelection. by rewrite updateInfoPanel_frame. Qed.

Lemma filter_overlay_app (l : list (positive * callback)) (h : positive)
    (cb : callback) :
  length (List.filter is_overlay (l ++ [(h, cb)])) =
  length (List.filter is_overlay l) + (if is_overlay (h, cb) then 1 else 0).
Proof.
  rewrite List.filter_app, length_app. cbn. by destruct (is_overlay (h, cb)).
Qed.

Lemma showToast_schedule (message : string) (st : app) :
  same_schedule st (showToast message st).
Proof.
  unfold showToast, requestAnimationFrame, same_schedule, overlay_pending.
  cbn [snd scheduleUpdate frameCallbacks set_lastHandle set_frameCallbacks
       set_toasts].
  rewrite filter_overlay_app. cbn. split; [done | lia].
Qed.

Lemma renderMap_schedule (st : app) : same_schedule st (snd (renderMap st)).
Proof.
  destruct (renderMap_cases st) as [[e ->]|[shown ->]]; [done|].
  cbn [snd]. by rewrite updateInfoPanel_frame, renderMarkers_frame.
Qed.

Lemma loadData_schedule (apartmentsReply : fetched (list listing))
    (westUniversityReply utCampusReply : fetched json) (st : app) :
  same_schedule st
    (snd (loadData apartmentsReply westUniversityReply utCampusReply st)).
Proof.
  assert (Hhandler : forall st0, same_schedule st st0 ->
            same_schedule st
              (snd ((renderMap;; modify (showToast loadFailedNotice)) st0))).
  { intros st0 [Hs Hp]. unfold mbind, M_bind, modify.
    destruct (renderMap_schedule st0) as [Hs1 Hp1].
    destruct (renderMap st0) as [[[]|e] st1]; cbn [snd] in *.
    - destruct (showToast_schedule loadFailedNotice st1) as [Hs2 Hp2].
      split; congruence.
    - split; congruence. }
  unfold loadData, try_catchM.
  destruct apartmentsReply as [|r]; [by apply Hhandler|].
  unfold mbind at 1, M_bind at 1, lift at 1. cbn [await].
  destruct (getNeighborhoodData_total "WEST UNIVERSITY" westUniversityReply)
    as [west Hwest].
  destruct (getNeighborhoodData_total "UT" utCampusReply) as [ut Hut].
  unfold mbind at 1, M_bind at 1, lift at 1. rewrite Hwest.
  unfold mbind at 1, M_bind at 1, lift at 1. rewrite Hut.
  unfold mbind at 1, M_bind at 1.
  destruct (ok r); [|by apply Hhandler].
  unfold mret at 1, M_ret at 1. unfold mbind at 1, M_bind at 1, lift at 1.
  destruct (body r) as [decoded|e]; [|by apply Hhandler].
  unfold mbind at 1, M_bind at 1, modify at 1.
  unfold mbind at 1, M_bind at 1, modify at 1.
  unfold mbind at 1, M_bind at 1, modify at 1.
  set (st3 := set_utCampusNeighborhood _ _).
  assert (H3 : same_schedule st st3) by done.
  destruct (renderMap_schedule st3) as [Hs Hp].
  destruct (renderMap st3) as [[[]|e] st4]; cbn [snd] in *.
  - destruct H3. split; congruence.
  - apply Hhandler. destruct H3. split; congruence.
Qed.

Lemma updateOverlay_scheduled (st : app) : scheduled st -> scheduled (updateOverlay st).
Proof.
  unfold scheduled, updateOverlay, overlay_pending.
  destruct (scheduleUpdate st) as [h|] eqn:Hs; [by rewrite Hs|].
  unfold requestAnimationFrame.
  cbn [scheduleUpdate frameCallbacks set_scheduleUpdate set_lastHandle
       set_frameCallbacks].
  rewrite filter_overlay_app. cbn. lia.
Qed.

(** While a callback is pending, a further invocation changes nothing. *)
Lemma updateOverlay_dropped (st : app) (h : positive) :
  scheduleUpdate st = Some h -> updateOverlay st = st.
Proof. intros Hs. unfold updateOverlay. by rewrite Hs. Qed.

Lemma updateOverlay_pending (st : app) :
  exists h, scheduleUpdate (updateOverlay st) = Some h.
Proof.
  unfold updateOverlay. destruct (scheduleUpdate st) as [h|] eqn:Hs; [eauto|].
  unfold requestAnimationFrame. cbn. eauto.
Qed.

(** What a frame callback does to the schedule. *)
Lemma runCallback_effect (entry : positive * callback) (st : app) :
  let st' := snd (runCallback (snd entry) st) in
  frameCallbacks st' = frameCallbacks st /\
  overlayRuns st' = overlayRuns st + (if is_overlay entry then 1 else 0) /\
  scheduleUpdate st' = if is_overlay entry then None else scheduleUpdate st.
Proof.
  destruct entry as [h [|i]]; unfold is_overlay; cbn [snd runCallback].
  - unfold overlayFrame, mbind, M_bind, modify.
    set (st2 := set_overlay _ _).
    destruct (getFilteredApartments_reads st2) as [[shown|e] ->]; cbn [snd].
    + rewrite renderMarkers_frame. cbn. split_and!; [done | lia | done].
    + cbn. split_and!; [done | lia | done].
  - cbn. split_and!; [done | lia | done].
Qed.

Lemma frame_effect (entries : list (positive * callback)) : forall st,
  let st' := fold_left (fun st '(_, cb) => snd (runCallback cb st)) entries st in
  frameCallbacks st' = frameCallbacks st /\
  overlayRuns st' = overlayRuns st + length (List.filter is_overlay entries) /\
  scheduleUpdate st' =
    if decide (length (List.filter is_overlay entries) = 0)
    then scheduleUpdate st else None.
Proof.
  induction entries as [|entry entries IH]; intros st.
  - cbn. split_and!; [done | lia | done].
  - cbn [fold_left List.filter].
    destruct (runCallback_effect entry st) as (Hf & Hr & Hs).
    destruct entry as [h cb]. cbn [snd] in *.
    specialize (IH (snd (runCallback cb st))). cbn zeta in IH.
    destruct IH as (Hf' & Hr' & Hs').
    rewrite Hf', Hr', Hs', Hf, Hr, Hs.
    destruct (is_overlay (h, cb)); cbn [length].
    + split_and!; [done | lia |]. by repeat case_decide.
    + split_and!; [done | lia | done].
Qed.

Lemma animationFrame_effect (st : app) :
  scheduled st ->
  let st' := step AnimationFrame st in
  frameCallbacks st' = [] /\
  overlayRuns st' = overlayRuns st + overlay_pending st /\
  scheduleUpdate st' = None.
Proof.
  intros Hsched. cbn [step].
  destruct (frame_effect (frameCallbacks st) (set_frameCallbacks [] st))
    as (Hf & Hr & Hs).
  cbn zeta in *. rewrite Hf, Hr, Hs.
  split_and!; [done | done |]. unfold scheduled, overlay_pending in Hsched.
  cbn [scheduleUpdate set_frameCallbacks].
  destruct (scheduleUpdate st); case_decide; try done. lia.
Qed.

Lemma step_scheduled (e : event) (st : app) : scheduled st -> scheduled (step e st).
Proof.
  intros Hsched. destruct e as [a w u|v|i|i key| |m|]; cbn [step].
  - eapply same_schedule_scheduled; [apply loadData_schedule | done].
  - eapply same_schedule_scheduled; [apply filterByPrice_schedule | done].
  - destruct (markers st !! i); [|done].
    eapply same_schedule_scheduled; [apply selectApartment_schedule | done].
  - destruct (markers st !! i); [|done]. destruct (_ || _); [|done].
    eapply same_schedule_scheduled; [apply selectApartment_schedule | done].
  - eapply same_schedule_scheduled; [apply clearSelection_schedule | done].
  - by apply updateOverlay_scheduled.
  - destruct (animationFrame_effect st Hsched) as (Hf & _ & Hs).
    cbn [step] in Hf, Hs. unfold scheduled, overlay_pending. by rewrite Hs, Hf.
Qed.

Lemma run_scheduled (es : list event) : forall st,
  scheduled st -> scheduled (run es st).
Proof.
  induction es as [|e es IH]; intros st Hsched; [done|].
  cbn [run fold_left]. by apply IH, step_scheduled.
Qed.

Lemma constructed_scheduled (m : LeafletMap) (page : option panel) :
  scheduled (constructed m page).
Proof. by apply updateOverlay_scheduled. Qed.

(** C8: in every state the page reaches, whatever events came before, the
    pending flag and the waiting overlay callback agree; the next frame
    runs the overlay work at most once; while the flag is set an invocation
    of [updateOverlay] is dropped and leaves the state as it is, so any
    number of invocations schedules what the first one did; and the frame
    that runs the callback clears the flag and leaves no overlay callback
    waiting. *)
Theorem updateOverlay_once_per_frame (m : LeafletMap) (page : option panel)
    (es : list event) :
  let st := run es (constructed m page) in
  scheduled st /\
  overlay_pending st <= 1 /\
  overlayRuns (step AnimationFrame st) = overlayRuns st + overlay_pending st /\
  overlayRuns (step AnimationFrame st) <= S (overlayRuns st) /\
  (forall h, scheduleUpdate st = Some h -> updateOverlay st = st) /\
  (forall n, Nat.iter n updateOverlay (updateOverlay st) = updateOverlay st) /\
  scheduleUpdate (step AnimationFrame st) = None /\
  overlay_pending (step AnimationFrame st) = 0.
Proof.
  intros st.
  assert (Hsched : scheduled st) by apply run_scheduled, constructed_scheduled.
  clearbody st.
  assert (Hle : overlay_pending st <= 1).
  { unfold scheduled in Hsched. destruct (scheduleUpdate st); lia. }
  destruct (animationFrame_effect st Hsched) as (Hf & Hr & Hs).
  split_and!; try done.
  - lia.
  - intros h. apply updateOverlay_dropped.
  - intros n. induction n as [|n IH]; [done|].
    change (Nat.iter (S n) updateOverlay (updateOverlay st))
      with (updateOverlay (Nat.iter n updateOverlay (updateOverlay st))).
    rewrite IH.
    destruct (updateOverlay_pending st) as [h Hh].
    by apply (updateOverlay_dropped _ h).
  - unfold overlay_pending. by rewrite Hf.
Qed.
